(** * Moving-average crossover strategy of [streamlit_app.py]

    A shallow embedding of the backtest that the page runs when the
    button is pressed: the strategy class [MovingAverageCross]
    (its [__init__] and [next]), the session-scoped message list that
    [next] appends to, and the bar-by-bar replay that drives it; then
    of the rest of the script: the table of yearly figures built by
    [get_gdp_data] and the drawing of the page around the run.

    Closing prices are exact rationals ([Q]); dates are day ordinals. *)

From Stdlib Require Import String Ascii.
From Stdlib Require Import List ZArith QArith Bool Lia Arith.
From Stdlib Require Import Lqa Sorted DecimalString DecimalNat.
Import ListNotations.

Local Open Scope Z_scope.

(** ** Price bars *)

Definition Date := Z.

(** The strategy reads [self.data.datetime.date(0)] and
    [self.data.close[0]] only; the other columns of the feed are never
    consulted by it. *)
Record Bar : Type := mkBar { date : Date; close : Q }.

Definition closes (series : list Bar) : list Q := map close series.

(** ** Moving average *)

Module MA.

(** The trailing window: the last [n] elements of a list. *)
Definition lastn {A : Type} (n : nat) (l : list A) : list A :=
  skipn (length l - n)%nat l.

Definition Qsum (l : list Q) : Q := fold_right Qplus 0%Q l.

Definition mean_over (p : nat) (l : list Q) : Q :=
  (Qsum l / inject_Z (Z.of_nat p))%Q.

(** Modelled from the spec: [bt.indicators.SimpleMovingAverage] is the
    framework's indicator and its body is not part of the source file.
    Section 4.1: a fixed-capacity sliding window of the most recent
    [period] closes, the oldest evicted on overflow; the value is the
    arithmetic mean of the window and is undefined until the window
    holds exactly [period] elements. *)
Record t : Type := mk { period : nat; window : list Q }.

Definition new (p : nat) : t := mk p [].

(** Modelled from the spec: feeding one close, the oldest one leaving a
    full window (Section 4.1). *)
Definition update (m : t) (c : Q) : t :=
  mk (period m) (lastn (period m) (window m ++ [c])).

(** Modelled from the spec: the mean of a full window, and no value
    before that (Section 4.1). *)
Definition value (m : t) : option Q :=
  if (length (window m) =? period m)%nat
  then Some (mean_over (period m) (window m))
  else None.

Definition feed (m : t) (cs : list Q) : t := fold_left update cs m.

End MA.

(** ** Session state and messages *)

(** The f-strings [BUY on {current_date} at {current_close}] and
    [SELL on {current_date} at {current_close}]: the action word and the
    two interpolated values. *)
Inductive Message : Type :=
| BUY_on (d : Date) (c : Q)
| SELL_on (d : Date) (c : Q).

(** [st.session_state] as far as the strategy touches it: the key
    [messages] is absent, or bound to a list. *)
Definition Session := option (list Message).

Definition session_messages (ss : Session) : list Message :=
  match ss with
  | Some ms => ms
  | None => []
  end.

(** ** The strategy object *)

(** [self.ma_short], [self.ma_long] and [self.position].  The position
    is the signed size held; as a Python condition it is true exactly
    when the size is not zero. *)
Record Strategy : Type := mkStrategy {
  ma_short : MA.t;
  ma_long : MA.t;
  position : Z
}.

(** [MovingAverageCross.__init__]: two separate averages of the close,
    over 15 and 30 bars; a new strategy holds nothing. *)
Definition init : Strategy := mkStrategy (MA.new 15) (MA.new 30) 0.

Definition in_position (self : Strategy) : bool := negb (position self =? 0).

(** Modelled from the spec: [self.buy()] and [self.sell()] hand an order
    of one unit to the framework's broker, which is not part of the
    source file.  Section 4.3/4.4: the change of position is synchronous
    and immediate, filled at the same bar's close. *)
Definition buy (self : Strategy) : Strategy :=
  mkStrategy (ma_short self) (ma_long self) (position self + 1).

Definition sell (self : Strategy) : Strategy :=
  mkStrategy (ma_short self) (ma_long self) (position self - 1).

(** Python's [>] and [<] on the two current values.  A value that is not
    yet defined compares false both ways. *)
Definition Qltb (x y : Q) : bool :=
  match (x ?= y)%Q with
  | Lt => true
  | _ => false
  end.

Definition gt_value (a b : option Q) : bool :=
  match a, b with
  | Some x, Some y => Qltb y x
  | _, _ => false
  end.

Definition lt_value (a b : option Q) : bool :=
  match a, b with
  | Some x, Some y => Qltb x y
  | _, _ => false
  end.

(** [MovingAverageCross.next], on the current bar [b]. *)
Definition next (b : Bar) (self : Strategy) (ss : Session)
  : Strategy * Session :=
  let current_date := date b in
  let current_close := close b in
  let messages := session_messages ss in
  if gt_value (MA.value (ma_short self)) (MA.value (ma_long self)) then
    if negb (in_position self) then
      (buy self, Some (messages ++ [BUY_on current_date current_close]))
    else (self, Some messages)
  else if lt_value (MA.value (ma_short self)) (MA.value (ma_long self)) then
    if in_position self then
      (sell self, Some (messages ++ [SELL_on current_date current_close]))
    else (self, Some messages)
  else (self, Some messages).

(** ** The replay loop *)

Definition advance (self : Strategy) (c : Q) : Strategy :=
  mkStrategy (MA.update (ma_short self) c) (MA.update (ma_long self) c)
             (position self).

Definition warm (self : Strategy) : bool :=
  match MA.value (ma_short self), MA.value (ma_long self) with
  | Some _, Some _ => true
  | _, _ => false
  end.

(** Modelled from the spec: [cerebro.run()] is the framework's loop and
    is not part of the source file.  Section 4.4: one bar per iteration,
    the close is fed to both averages and the decision rule is executed
    only when both are defined. *)
Definition engine_step (e : Strategy * Session) (b : Bar)
  : Strategy * Session :=
  let self := advance (fst e) (close b) in
  if warm self then next b self (snd e) else (self, snd e).

(** A run builds a new [Cerebro] and a new strategy object, and works on
    the session it finds. *)
Definition cerebro_run (ss : Session) (series : list Bar)
  : Strategy * Session :=
  fold_left engine_step series (init, ss).

(** What a run appends: the log of a run started in a session that has
    no messages yet. *)
Definition run_log (series : list Bar) : list Message :=
  session_messages (snd (cerebro_run None series)).

Definition final_position (series : list Bar) : Z :=
  position (fst (cerebro_run None series)).

(** ** The arithmetic mean, in the words of the specification *)

(** Section 4.1 and 8: the values added up one after the other, divided
    by how many they are.  Nothing of the moving average above is used
    here. *)
Definition total (values : list Q) : Q := fold_left Qplus values 0%Q.

Definition arithmetic_mean (values : list Q) : Q :=
  (total values / inject_Z (Z.of_nat (length values)))%Q.

(** ** The crossover relation, in the words of the specification *)

Module Crossover.

Inductive Relation : Type := ABOVE | BELOW.

Definition opposite (r : Relation) : Relation :=
  match r with
  | ABOVE => BELOW
  | BELOW => ABOVE
  end.

(** Section 4.2, [observe]: undefined if either input is undefined;
    above or below by strict comparison; on exact equality the relation
    keeps its prior value. *)
Definition observe (prior : option Relation) (sv lv : option Q)
  : option Relation :=
  match sv, lv with
  | Some s, Some l =>
      match (s ?= l)%Q with
      | Gt => Some ABOVE
      | Lt => Some BELOW
      | Eq => prior
      end
  | _, _ => None
  end.

Record Detector : Type := mkDetector {
  d_short : MA.t;
  d_long : MA.t;
  relation : option Relation
}.

Definition start : Detector := mkDetector (MA.new 15) (MA.new 30) None.

Definition detector_step (d : Detector) (b : Bar) : Detector :=
  let s := MA.update (d_short d) (close b) in
  let l := MA.update (d_long d) (close b) in
  mkDetector s l (observe (relation d) (MA.value s) (MA.value l)).

(** The relation once the bars of [series] have been observed. *)
Definition relation_after (series : list Bar) : option Relation :=
  relation (fold_left detector_step series start).

(** Section 8: a transition to [r] at bar [b], which follows the bars
    [pre]: the relation before is the opposite one, the relation after
    is [r], both defined. *)
Definition transitioned_to (r : Relation) (pre : list Bar) (b : Bar) : Prop :=
  relation_after pre = Some (opposite r) /\
  relation_after (pre ++ [b]) = Some r.

End Crossover.

(** ** Observations on a run *)

(** The averages as the strategy sees them on the last bar of [series]. *)
Definition short_at (series : list Bar) : option Q :=
  MA.value (MA.feed (MA.new 15) (closes series)).

Definition long_at (series : list Bar) : option Q :=
  MA.value (MA.feed (MA.new 30) (closes series)).

Definition both_defined (series : list Bar) : Prop :=
  short_at series <> None /\ long_at series <> None.

(** The decision of [next] read off the two current values and the
    position held when the bar arrives: the position it leaves and the
    entries it appends. *)
Definition position_on (sv lv : option Q) (p : Z) : Z :=
  if gt_value sv lv then (if p =? 0 then p + 1 else p)
  else if lt_value sv lv then (if p =? 0 then p else p - 1)
  else p.

Definition signal_on (sv lv : option Q) (p : Z) (b : Bar) : list Message :=
  if gt_value sv lv then (if p =? 0 then [BUY_on (date b) (close b)] else [])
  else if lt_value sv lv then
    (if p =? 0 then [] else [SELL_on (date b) (close b)])
  else [].

Definition short_above (series : list Bar) : Prop :=
  exists s l, short_at series = Some s /\ long_at series = Some l /\ (l < s)%Q.

Definition short_below (series : list Bar) : Prop :=
  exists s l, short_at series = Some s /\ long_at series = Some l /\ (s < l)%Q.

(** The position test of [next], on the strategy as the bars of
    [series] leave it. *)
Definition is_long (ss : Session) (series : list Bar) : Prop :=
  in_position (fst (cerebro_run ss series)) = true.

Definition is_flat (ss : Session) (series : list Bar) : Prop :=
  in_position (fst (cerebro_run ss series)) = false.

(** Bar [b], which follows the bars [pre], makes the run append [m]. *)
Definition appends (ss : Session) (pre : list Bar) (b : Bar) (m : Message)
  : Prop :=
  session_messages (snd (cerebro_run ss (pre ++ [b]))) =
  session_messages (snd (cerebro_run ss pre)) ++ [m].

Definition emits_BUY (ss : Session) (pre : list Bar) (b : Bar) : Prop :=
  appends ss pre b (BUY_on (date b) (close b)) /\
  position (fst (cerebro_run ss (pre ++ [b]))) = 1.

Definition emits_SELL (ss : Session) (pre : list Bar) (b : Bar) : Prop :=
  appends ss pre b (SELL_on (date b) (close b)) /\
  position (fst (cerebro_run ss (pre ++ [b]))) = 0.

(** The relation becomes above at [b] with no relation defined before. *)
Definition first_above (pre : list Bar) (b : Bar) : Prop :=
  Crossover.relation_after pre = None /\
  Crossover.relation_after (pre ++ [b]) = Some Crossover.ABOVE.

Definition message_of (r : Crossover.Relation) (b : Bar) : Message :=
  match r with
  | Crossover.ABOVE => BUY_on (date b) (close b)
  | Crossover.BELOW => SELL_on (date b) (close b)
  end.

Definition reports_signal (pre : list Bar) (b : Bar) : Prop :=
  exists m, run_log (pre ++ [b]) = run_log pre ++ [m].

(** Two presses of the button in one session: the second run starts
    from the session the first one left. *)
Definition then_run (ss : Session) (first second : list Bar)
  : Strategy * Session :=
  cerebro_run (snd (cerebro_run ss first)) second.

(** ** Shape of a log *)

Definition is_buy (m : Message) : bool :=
  match m with
  | BUY_on _ _ => true
  | SELL_on _ _ => false
  end.

(** The log alternates, its first entry being a BUY exactly when
    [expect_buy] is set. *)
Fixpoint alternates (expect_buy : bool) (log : list Message) : bool :=
  match log with
  | [] => true
  | BUY_on _ _ :: rest => expect_buy && alternates false rest
  | SELL_on _ _ :: rest => negb expect_buy && alternates true rest
  end.

(** The action expected after [log], [expect_buy] being expected before. *)
Fixpoint expected_next (expect_buy : bool) (log : list Message) : bool :=
  match log with
  | [] => expect_buy
  | m :: rest => expected_next (negb (is_buy m)) rest
  end.

(** The log is not empty and its last entry is a BUY. *)
Definition last_is_BUY (log : list Message) : bool :=
  match log with
  | [] => false
  | _ => is_buy (last log (SELL_on 0 0%Q))
  end.

(** ** The page's button handler *)






(** ** Sample series *)

Definition bar_of (f : nat -> Q) (i : nat) : Bar := mkBar (Z.of_nat i) (f i).

(** Bars dated 1, 2, ..., [n] whose close on day [i] is [f i]. *)
Definition series_of (f : nat -> Q) (n : nat) : list Bar :=
  map (bar_of f) (seq 1 n).

Definition rising (i : nat) : Q := inject_Z (Z.of_nat i).

Definition level (i : nat) : Q := 5%Q.

(** Up for 30 days, then down. *)
Definition peak (i : nat) : Q :=
  if (i <=? 30)%nat then inject_Z (Z.of_nat i)
  else inject_Z (60 - Z.of_nat i).

(** ** Entries against bars *)

(** The bar an entry was written on: its date and its close. *)
Definition entry_bar (m : Message) : Bar :=
  match m with
  | BUY_on d c => mkBar d c
  | SELL_on d c => mkBar d c
  end.

(** [l1] is [l2] with some elements left out, the order kept. *)
Inductive subsequence {A : Type} : list A -> list A -> Prop :=
| subsequence_nil : subsequence [] []
| subsequence_skip (x : A) (l1 l2 : list A) :
    subsequence l1 l2 -> subsequence l1 (x :: l2)
| subsequence_take (x : A) (l1 l2 : list A) :
    subsequence l1 l2 -> subsequence (x :: l1) (x :: l2).

Definition buys (log : list Message) : nat := length (filter is_buy log).

Definition sells (log : list Message) : nat :=
  length (filter (fun m => negb (is_buy m)) log).

(** ** Series of a given shape *)

(** Every close equals [c], as a rational. *)
Definition all_closes_equal (c : Q) (series : list Bar) : Prop :=
  Forall (fun x => (x == c)%Q) (closes series).

(** Each close is above all those before it. *)
Definition uptrend (series : list Bar) : Prop :=
  StronglySorted Qlt (closes series).

(** Each close is below all those before it. *)
Definition downtrend (series : list Bar) : Prop :=
  StronglySorted (fun x y => (y < x)%Q) (closes series).

Definition falling (i : nat) : Q := inject_Z (100 - Z.of_nat i).

(** ** The table of yearly figures *)

Module Frame.

(** What a Python call gives: a value, or an exception raised. *)
Inductive Exception : Type := KeyError | ValueError.

Inductive Result (A : Type) : Type :=
| Ok (a : A)
| Raised (e : Exception).

Arguments Ok {A} a.
Arguments Raised {A} e.

(** A table as [pd.read_csv] gives it: the column labels in order, and
    for each row the cell under each label. *)
Record DataFrame (Cell : Type) : Type := mkFrame {
  columns : list string;
  rows : list (string -> Cell)
}.

Arguments mkFrame {Cell} columns rows.
Arguments columns {Cell} d.
Arguments rows {Cell} d.

Definition has_column {Cell : Type} (df : DataFrame Cell) (c : string) : bool :=
  existsb (String.eqb c) (columns df).

(** [df.melt([id_var], value_vars, var_name, value_name)].  A table that
    already has a column labelled [value_name] is refused with a
    [ValueError] before anything else is looked at; then a label among
    [id_var] and [value_vars] that [df] does not have is a [KeyError].
    Otherwise there is one row per value column and per row of [df],
    the value columns outermost, each holding the identifier cell, the
    label of the value column (under [var_name]) and the cell under it
    (under [value_name]). *)
Definition melt {Cell : Type} (df : DataFrame Cell) (id_var : string)
           (value_vars : list string) (var_name value_name : string)
  : Result (list (Cell * string * Cell)) :=
  if has_column df value_name then Raised ValueError
  else if forallb (has_column df) (id_var :: value_vars)
  then Ok (flat_map
             (fun v => map (fun r => (r id_var, v, r v)) (rows df))
             value_vars)
  else Raised KeyError.

(** [str(x)] on a non-negative integer: its decimal digits. *)
Definition str (x : nat) : string := NilEmpty.string_of_uint (Nat.to_uint x).

(** [range(a, b)]. *)
Definition range (a b : nat) : list nat := seq a (b - a).

(** Reading a run of decimal digits back as a number. *)
Definition read_digits (s : string) : option nat :=
  match s with
  | EmptyString => None
  | _ => option_map Nat.of_uint (NilEmpty.uint_of_string s)
  end.

Definition MIN_YEAR : nat := 1960.
Definition MAX_YEAR : nat := 2022.

Definition year_labels : list string := map str (range MIN_YEAR (MAX_YEAR + 1)).

Section GetGdpData.

Variable Cell : Type.

(** [pd.to_numeric] on one label of the Year column; [None] when the
    text is not a number, which makes the conversion of the column raise
    a [ValueError]. *)
Variable to_numeric : string -> option nat.

Fixpoint to_numeric_years (melted : list (Cell * string * Cell))
  : Result (list (Cell * nat * Cell)) :=
  match melted with
  | [] => Ok []
  | (code, label, gdp) :: rest =>
      match to_numeric label with
      | None => Raised ValueError
      | Some year =>
          match to_numeric_years rest with
          | Ok rest' => Ok ((code, year, gdp) :: rest')
          | Raised e => Raised e
          end
      end
  end.

(** [get_gdp_data], from the table read from the file on: the year
    columns are turned into rows of country code, year and figure, and
    the years into numbers. *)
Definition get_gdp_data (raw_gdp_df : DataFrame Cell)
  : Result (list (Cell * nat * Cell)) :=
  match melt raw_gdp_df "Country Code" year_labels "Year" "GDP" with
  | Raised e => Raised e
  | Ok gdp_df => to_numeric_years gdp_df
  end.

End GetGdpData.

End Frame.

(** ** Drawing the page *)

(** What [cerebro.run()] raises on a feed that holds fewer bars than the
    longer of the two periods: the framework then reads past the end of
    its buffers, before [next] is ever called. *)
Inductive RunError : Type := IndexError.

Section Page.

(** A figure of the chart, as [cerebro.plot] draws it. *)
Variable Figure : Type.

(** [fetch_stock_data(ticker, start_date, end_date)]: the download, as
    the table of bars that reaches the feed. *)
Variable fetch_stock_data : string -> Date -> Date -> list Bar.

(** The first figure of each entry of [cerebro.plot(iplot=False)]. *)
Variable plot : Strategy -> list Bar -> list Figure.

(** What the page shows, in the order it is written.  An exception that
    nothing catches ends the pass, and the page shows it where the pass
    stopped. *)
Inductive Element : Type :=
| markdown (body : string)
| warning (body : string)
| header (body : string)
| sidebar_header (body : string)
| sidebar_write (m : Message)
| pyplot (fig : Figure)
| write_table (stock_data : list Bar)
| exception (e : RunError).

(** The input widgets: the share picked, the two dates, and whether
    the button was pressed on this pass. *)
Record Inputs : Type := mkInputs {
  selected_share : string;
  start_date : option Date;
  end_date : option Date;
  button : bool
}.

Definition chosen (share : string) : bool := negb (String.eqb share "").

Definition title : string :=
  "
# :chart_with_upwards_trend: My Share Trading Strategies

This trading strategy is a moving average cross over strategy. If the share is in a sidewards trend, this strategy is not recommended.
".

(** The sidebar, drawn when the session has the key and its list is not
    empty. *)
Definition trade_signals (ss : Session) : list Element :=
  match ss with
  | Some (m :: ms) =>
      sidebar_header "Trade Signals" :: map sidebar_write (m :: ms)
  | _ => []
  end.

(** The branch taken with valid dates and the button pressed.  An empty
    table gives the warning.  A table of fewer than 30 bars stops the
    pass at [cerebro.run()], after the header and before anything else
    is drawn, the session being as it was.  Otherwise the run is made
    and its results are drawn. *)
Definition get_trading_strategy (ss : Session) (share : string)
           (start finish : Date) : list Element * Session :=
  if chosen share then
    let stock_data := fetch_stock_data share start finish in
    match stock_data with
    | [] =>
        ([header ("Trading strategy for " ++ share);
          warning "No data found for the selected ticker and date range."],
         ss)
    | _ :: _ =>
        if (length stock_data <? 30)%nat then
          ([header ("Trading strategy for " ++ share); exception IndexError],
           ss)
        else
          let e := cerebro_run ss stock_data in
          ([header ("Trading strategy for " ++ share)]
           ++ trade_signals (snd e)
           ++ map pyplot (plot (fst e) stock_data)
           ++ [markdown ""; write_table stock_data],
           snd e)
    end
  else ([], ss).

(** One pass of the script from the title down. *)
Definition draw (ss : Session) (inp : Inputs) : list Element * Session :=
  let top := [markdown title; markdown ""; markdown ""] in
  let pick :=
    if chosen (selected_share inp) then []
    else [warning "Select one share"] in
  let invalid := [warning "Please select valid start and end dates."] in
  match start_date inp, end_date inp with
  | Some start, Some finish =>
      if start <? finish then
        if button inp then
          let r := get_trading_strategy ss (selected_share inp) start finish in
          (top ++ pick ++ [markdown ""] ++ fst r, snd r)
        else (top ++ pick ++ [markdown ""], ss)
      else (top ++ pick ++ [markdown ""] ++ invalid, ss)
  | _, _ => (top ++ pick ++ [markdown ""] ++ invalid, ss)
  end.

(** The entries written to the sidebar. *)
Fixpoint sidebar_entries (shown : list Element) : list Message :=
  match shown with
  | [] => []
  | sidebar_write m :: rest => m :: sidebar_entries rest
  | _ :: rest => sidebar_entries rest
  end.

End Page.

Arguments markdown {Figure} body.
Arguments warning {Figure} body.
Arguments header {Figure} body.
Arguments sidebar_header {Figure} body.
Arguments sidebar_write {Figure} m.
Arguments pyplot {Figure} fig.
Arguments write_table {Figure} stock_data.
Arguments exception {Figure} e.
Arguments sidebar_entries {Figure} shown.
Arguments trade_signals {Figure} ss.

(** The inputs under which the button's branch is taken for [share]
    between [start] and [finish]. *)
Definition pressed (inp : Inputs) (share : string) (start finish : Date)
  : Prop :=
  selected_share inp = share /\ share <> ""%string /\
  start_date inp = Some start /\ end_date inp = Some finish /\
  start < finish /\ button inp = true.

(** A table with one row, every cell of which repeats its label. *)
Definition sample_frame : Frame.DataFrame string :=
  Frame.mkFrame ("Country Name" :: "Country Code" :: Frame.year_labels)%string
                [fun label => label].

(** A download for the examples: 30 rising bars for one share, 40 level
    bars for any other. *)
Definition sample_fetch (share : string) (start finish : Date) : list Bar :=
  if String.eqb share "BBVA.MC" then series_of rising 30
  else series_of level 40.

Definition no_plot (self : Strategy) (stock_data : list Bar) : list unit := [].

Definition first_press : Inputs :=
  mkInputs "BBVA.MC" (Some 1) (Some 100) true.

Definition second_press : Inputs :=
  mkInputs "SAN.MC" (Some 1) (Some 100) true.

Definition same_day_press : Inputs :=
  mkInputs "BBVA.MC" (Some 7) (Some 7) true.

(** * Properties *)

(** ** The moving average *)

Section MovingAverageFacts.

Lemma lastn_all {A : Type} (n : nat) (l : list A) :
  (length l <= n)%nat -> MA.lastn n l = l.
Proof.
  intros H. unfold MA.lastn.
  replace (length l - n)%nat with 0%nat by lia. reflexivity.
Qed.

Lemma lastn_length {A : Type} (n : nat) (l : list A) :
  length (MA.lastn n l) = Nat.min n (length l).
Proof. unfold MA.lastn. rewrite length_skipn. lia. Qed.

Lemma lastn_snoc {A : Type} (n : nat) (l : list A) (c : A) :
  MA.lastn n (MA.lastn n l ++ [c]) = MA.lastn n (l ++ [c]).
Proof.
  destruct (Nat.le_gt_cases (length l) n) as [Hle | Hgt].
  - now rewrite (lastn_all n l Hle).
  - unfold MA.lastn.
    rewrite !length_app, length_skipn. cbn [length].
    replace (length l - (length l - n) + 1 - n)%nat with 1%nat by lia.
    replace (length l + 1 - n)%nat with (1 + (length l - n))%nat by lia.
    rewrite <- skipn_skipn. f_equal.
    rewrite skipn_app.
    replace (length l - n - length l)%nat with 0%nat by lia.
    reflexivity.
Qed.

Lemma feed_snoc (m : MA.t) (cs : list Q) (c : Q) :
  MA.feed m (cs ++ [c]) = MA.update (MA.feed m cs) c.
Proof. unfold MA.feed. now rewrite fold_left_app. Qed.

Lemma feed_period (m : MA.t) (cs : list Q) :
  MA.period (MA.feed m cs) = MA.period m.
Proof.
  induction cs as [| c cs IH] using rev_ind; [reflexivity |].
  now rewrite feed_snoc.
Qed.

Lemma feed_window (p : nat) (cs : list Q) :
  MA.window (MA.feed (MA.new p) cs) = MA.lastn p cs.
Proof.
  induction cs as [| c cs IH] using rev_ind.
  - now destruct p.
  - rewrite feed_snoc. unfold MA.update. cbn [MA.window].
    rewrite feed_period, IH. cbn [MA.new MA.period].
    apply lastn_snoc.
Qed.

Lemma value_feed (p : nat) (cs : list Q) :
  (1 <= p)%nat ->
  MA.value (MA.feed (MA.new p) cs) =
  if (length cs <? p)%nat then None
  else Some (MA.mean_over p (MA.lastn p cs)).
Proof.
  intros Hp. unfold MA.value.
  rewrite feed_window, feed_period, lastn_length. cbn [MA.new MA.period].
  destruct (Nat.ltb_spec (length cs) p) as [Hlt | Hge].
  - destruct (Nat.eqb_spec (Nat.min p (length cs)) p); [lia | reflexivity].
  - destruct (Nat.eqb_spec (Nat.min p (length cs)) p); [reflexivity | lia].
Qed.

End MovingAverageFacts.

(** ** One bar of the replay *)

Section EngineFacts.

Lemma run_snoc (ss : Session) (pre : list Bar) (b : Bar) :
  cerebro_run ss (pre ++ [b]) = engine_step (cerebro_run ss pre) b.
Proof. unfold cerebro_run. now rewrite fold_left_app. Qed.

Lemma next_ma_short (b : Bar) (self : Strategy) (ss : Session) :
  ma_short (fst (next b self ss)) = ma_short self.
Proof.
  unfold next.
  destruct (gt_value _ _); [destruct (negb _); reflexivity |].
  destruct (lt_value _ _); [destruct (in_position _) |]; reflexivity.
Qed.

Lemma next_ma_long (b : Bar) (self : Strategy) (ss : Session) :
  ma_long (fst (next b self ss)) = ma_long self.
Proof.
  unfold next.
  destruct (gt_value _ _); [destruct (negb _); reflexivity |].
  destruct (lt_value _ _); [destruct (in_position _) |]; reflexivity.
Qed.

Lemma step_ma_short (e : Strategy * Session) (b : Bar) :
  ma_short (fst (engine_step e b)) = MA.update (ma_short (fst e)) (close b).
Proof.
  unfold engine_step. destruct (warm _); [now rewrite next_ma_short |].
  reflexivity.
Qed.

Lemma step_ma_long (e : Strategy * Session) (b : Bar) :
  ma_long (fst (engine_step e b)) = MA.update (ma_long (fst e)) (close b).
Proof.
  unfold engine_step. destruct (warm _); [now rewrite next_ma_long |].
  reflexivity.
Qed.

Lemma closes_snoc (pre : list Bar) (b : Bar) :
  closes (pre ++ [b]) = closes pre ++ [close b].
Proof. unfold closes. now rewrite map_app. Qed.

Lemma run_ma_short (ss : Session) (series : list Bar) :
  ma_short (fst (cerebro_run ss series)) = MA.feed (MA.new 15) (closes series).
Proof.
  induction series as [| b pre IH] using rev_ind; [reflexivity |].
  now rewrite run_snoc, step_ma_short, IH, closes_snoc, feed_snoc.
Qed.

Lemma run_ma_long (ss : Session) (series : list Bar) :
  ma_long (fst (cerebro_run ss series)) = MA.feed (MA.new 30) (closes series).
Proof.
  induction series as [| b pre IH] using rev_ind; [reflexivity |].
  now rewrite run_snoc, step_ma_long, IH, closes_snoc, feed_snoc.
Qed.

(** Undefined values compare false both ways, so the decision of a
    bar before warm-up is the one [next] would take. *)
Lemma compare_cold (sv lv : option Q) :
  match sv, lv with Some _, Some _ => true | _, _ => false end = false ->
  gt_value sv lv = false /\ lt_value sv lv = false.
Proof. destruct sv, lv; intros H; try discriminate; now split. Qed.

Lemma step_position (ss : Session) (pre : list Bar) (b : Bar) :
  position (fst (cerebro_run ss (pre ++ [b]))) =
  position_on (short_at (pre ++ [b])) (long_at (pre ++ [b]))
              (position (fst (cerebro_run ss pre))).
Proof.
  unfold short_at, long_at.
  rewrite <- (run_ma_short ss (pre ++ [b])), <- (run_ma_long ss (pre ++ [b])).
  rewrite run_snoc, step_ma_short, step_ma_long.
  unfold engine_step, position_on, warm, next, in_position.
  cbn [advance ma_short ma_long position].
  set (sv := MA.value (MA.update (ma_short (fst (cerebro_run ss pre))) (close b))).
  set (lv := MA.value (MA.update (ma_long (fst (cerebro_run ss pre))) (close b))).
  destruct (match sv, lv with Some _, Some _ => true | _, _ => false end) eqn:W.
  - destruct (gt_value sv lv).
    + now destruct (position (fst (cerebro_run ss pre)) =? 0).
    + destruct (lt_value sv lv); [| reflexivity].
      now destruct (position (fst (cerebro_run ss pre)) =? 0).
  - destruct (compare_cold sv lv W) as [-> ->]. reflexivity.
Qed.

Lemma step_messages (ss : Session) (pre : list Bar) (b : Bar) :
  session_messages (snd (cerebro_run ss (pre ++ [b]))) =
  session_messages (snd (cerebro_run ss pre)) ++
  signal_on (short_at (pre ++ [b])) (long_at (pre ++ [b]))
            (position (fst (cerebro_run ss pre))) b.
Proof.
  unfold short_at, long_at.
  rewrite <- (run_ma_short ss (pre ++ [b])), <- (run_ma_long ss (pre ++ [b])).
  rewrite run_snoc, step_ma_short, step_ma_long.
  unfold engine_step, signal_on, warm, next, in_position.
  cbn [advance ma_short ma_long position].
  set (sv := MA.value (MA.update (ma_short (fst (cerebro_run ss pre))) (close b))).
  set (lv := MA.value (MA.update (ma_long (fst (cerebro_run ss pre))) (close b))).
  destruct (match sv, lv with Some _, Some _ => true | _, _ => false end) eqn:W.
  - destruct (gt_value sv lv).
    + destruct (position (fst (cerebro_run ss pre)) =? 0); cbn;
        now rewrite ?app_nil_r.
    + destruct (lt_value sv lv); [| cbn; now rewrite app_nil_r].
      destruct (position (fst (cerebro_run ss pre)) =? 0); cbn;
        now rewrite ?app_nil_r.
  - destruct (compare_cold sv lv W) as [-> ->]. cbn. now rewrite app_nil_r.
Qed.

(** The strategy object of a run does not depend on the session. *)
Lemma run_position_any (ss : Session) (series : list Bar) :
  position (fst (cerebro_run ss series)) = final_position series.
Proof.
  unfold final_position.
  induction series as [| b pre IH] using rev_ind; [reflexivity |].
  now rewrite !step_position, IH.
Qed.

(** A run appends its log to whatever the session already holds. *)
Lemma run_messages_any (ss : Session) (series : list Bar) :
  session_messages (snd (cerebro_run ss series)) =
  session_messages ss ++ run_log series.
Proof.
  unfold run_log.
  induction series as [| b pre IH] using rev_ind.
  - cbn. now rewrite app_nil_r.
  - rewrite !step_messages, IH, !run_position_any. now rewrite app_assoc.
Qed.

Lemma log_snoc (pre : list Bar) (b : Bar) :
  run_log (pre ++ [b]) =
  run_log pre ++
  signal_on (short_at (pre ++ [b])) (long_at (pre ++ [b]))
            (final_position pre) b.
Proof. unfold run_log, final_position. apply step_messages. Qed.

Lemma position_snoc (pre : list Bar) (b : Bar) :
  final_position (pre ++ [b]) =
  position_on (short_at (pre ++ [b])) (long_at (pre ++ [b]))
              (final_position pre).
Proof. unfold final_position. apply step_position. Qed.

End EngineFacts.

(** ** The relation and the position *)

Section CrossoverFacts.

Import Crossover.

Lemma gt_value_compare (s l : Q) :
  gt_value (Some s) (Some l) =
  match (s ?= l)%Q with Gt => true | _ => false end.
Proof.
  cbn. unfold Qltb. rewrite <- (Qcompare_antisym s l).
  now destruct (s ?= l)%Q.
Qed.

Lemma lt_value_compare (s l : Q) :
  lt_value (Some s) (Some l) =
  match (s ?= l)%Q with Lt => true | _ => false end.
Proof. reflexivity. Qed.

Lemma detector_snoc (pre : list Bar) (b : Bar) :
  fold_left detector_step (pre ++ [b]) start =
  detector_step (fold_left detector_step pre start) b.
Proof. now rewrite fold_left_app. Qed.

Lemma detector_short (series : list Bar) :
  d_short (fold_left detector_step series start) =
  MA.feed (MA.new 15) (closes series).
Proof.
  induction series as [| b pre IH] using rev_ind; [reflexivity |].
  rewrite detector_snoc, closes_snoc, feed_snoc, <- IH. reflexivity.
Qed.

Lemma detector_long (series : list Bar) :
  d_long (fold_left detector_step series start) =
  MA.feed (MA.new 30) (closes series).
Proof.
  induction series as [| b pre IH] using rev_ind; [reflexivity |].
  rewrite detector_snoc, closes_snoc, feed_snoc, <- IH. reflexivity.
Qed.

Lemma relation_snoc (pre : list Bar) (b : Bar) :
  relation_after (pre ++ [b]) =
  observe (relation_after pre) (short_at (pre ++ [b])) (long_at (pre ++ [b])).
Proof.
  unfold relation_after, short_at, long_at.
  rewrite detector_snoc, !closes_snoc, !feed_snoc.
  rewrite <- detector_short, <- detector_long. reflexivity.
Qed.

Lemma short_at_length (series : list Bar) :
  short_at series =
  if (length series <? 15)%nat then None
  else Some (MA.mean_over 15 (MA.lastn 15 (closes series))).
Proof.
  unfold short_at. rewrite value_feed by lia.
  unfold closes. now rewrite length_map.
Qed.

Lemma long_at_length (series : list Bar) :
  long_at series =
  if (length series <? 30)%nat then None
  else Some (MA.mean_over 30 (MA.lastn 30 (closes series))).
Proof.
  unfold long_at. rewrite value_feed by lia.
  unfold closes. now rewrite length_map.
Qed.

Lemma both_defined_length (series : list Bar) :
  both_defined series <-> (30 <= length series)%nat.
Proof.
  unfold both_defined. rewrite short_at_length, long_at_length.
  destruct (Nat.ltb_spec (length series) 15) as [H15 | H15];
    destruct (Nat.ltb_spec (length series) 30) as [H30 | H30].
  - split; [intros [H _]; now contradiction H | lia].
  - lia.
  - split; [intros [_ H]; now contradiction H | lia].
  - split; [intros _; exact H30 | intros _; split; discriminate].
Qed.

Lemma observe_defined (prior : option Relation) (sv lv : option Q)
      (r : Relation) :
  observe prior sv lv = Some r -> sv <> None /\ lv <> None.
Proof. destruct sv, lv; cbn; intros H; try discriminate; split; discriminate. Qed.

Lemma relation_defined_length (series : list Bar) (r : Relation) :
  relation_after series = Some r -> (30 <= length series)%nat.
Proof.
  destruct series as [| b pre] using rev_ind; [discriminate |].
  rewrite relation_snoc. intros H.
  apply both_defined_length. exact (observe_defined _ _ _ _ H).
Qed.

(** Once the relation is defined, both averages stay defined. *)
Lemma cold_after_defined (pre : list Bar) (b : Bar) (r : Relation) :
  relation_after pre = Some r ->
  short_at (pre ++ [b]) = None \/ long_at (pre ++ [b]) = None -> False.
Proof.
  intros Hr H. apply relation_defined_length in Hr.
  assert (D : both_defined (pre ++ [b])).
  { apply both_defined_length. rewrite length_app. cbn. lia. }
  destruct D as [Ds Dl]. destruct H; contradiction.
Qed.

(** The position mirrors the relation: one unit is held exactly while
    the relation is above; otherwise nothing is held. *)
Lemma position_relation (series : list Bar) :
  (final_position series = 1 /\ relation_after series = Some ABOVE) \/
  (final_position series = 0 /\ relation_after series <> Some ABOVE).
Proof.
  induction series as [| b pre IH] using rev_ind.
  - right. split; [reflexivity | discriminate].
  - rewrite position_snoc, relation_snoc.
    destruct (short_at (pre ++ [b])) as [s |] eqn:Es;
      destruct (long_at (pre ++ [b])) as [l |] eqn:El.
    + unfold position_on. rewrite gt_value_compare, lt_value_compare.
      cbn [observe].
      destruct (s ?= l)%Q.
      * exact IH.
      * right. split; [| discriminate].
        destruct IH as [[-> _] | [-> _]]; reflexivity.
      * left. split; [| reflexivity].
        destruct IH as [[-> _] | [-> _]]; reflexivity.
    + right. split; [| now cbn].
      destruct IH as [[_ Hr] | [-> _]]; [exfalso | reflexivity].
      eapply cold_after_defined; eauto.
    + right. split; [| now cbn].
      destruct IH as [[_ Hr] | [-> _]]; [exfalso | reflexivity].
      eapply cold_after_defined; eauto.
    + right. split; [| now cbn].
      destruct IH as [[_ Hr] | [-> _]]; [exfalso | reflexivity].
      eapply cold_after_defined; eauto.
Qed.

Lemma position_flat_or_long (series : list Bar) :
  final_position series = 0 \/ final_position series = 1.
Proof. destruct (position_relation series) as [[? _] | [? _]]; auto. Qed.

End CrossoverFacts.

(** ** What one bar does, case by case *)

Section StepView.

Import Crossover.

Lemma short_above_compare (series : list Bar) (s l : Q) :
  short_at series = Some s -> long_at series = Some l ->
  (short_above series <-> (s ?= l)%Q = Gt).
Proof.
  intros Es El. split.
  - intros (s' & l' & Es' & El' & H).
    rewrite Es in Es'. rewrite El in El'.
    injection Es' as <-. injection El' as <-. now apply Qgt_alt.
  - intros H. exists s, l.
    split; [exact Es | split; [exact El | now apply Qgt_alt]].
Qed.

Lemma short_below_compare (series : list Bar) (s l : Q) :
  short_at series = Some s -> long_at series = Some l ->
  (short_below series <-> (s ?= l)%Q = Lt).
Proof.
  intros Es El. split.
  - intros (s' & l' & Es' & El' & H).
    rewrite Es in Es'. rewrite El in El'.
    injection Es' as <-. injection El' as <-. now apply Qlt_alt.
  - intros H. exists s, l.
    split; [exact Es | split; [exact El | now apply Qlt_alt]].
Qed.

Lemma cold_not_above (series : list Bar) :
  short_at series = None \/ long_at series = None -> ~ short_above series.
Proof.
  intros H (s & l & Es & El & _). destruct H; congruence.
Qed.

(** A bar buys, holds long, sells, or holds flat. *)
Lemma step_view (pre : list Bar) (b : Bar) :
  (final_position pre = 0 /\ short_above (pre ++ [b]) /\
   relation_after pre <> Some ABOVE /\
   relation_after (pre ++ [b]) = Some ABOVE /\
   run_log (pre ++ [b]) = run_log pre ++ [BUY_on (date b) (close b)] /\
   final_position (pre ++ [b]) = 1)
  \/
  (final_position pre = 1 /\ ~ short_below (pre ++ [b]) /\
   relation_after pre = Some ABOVE /\
   relation_after (pre ++ [b]) = Some ABOVE /\
   run_log (pre ++ [b]) = run_log pre /\
   final_position (pre ++ [b]) = 1)
  \/
  (final_position pre = 1 /\ short_below (pre ++ [b]) /\
   relation_after pre = Some ABOVE /\
   relation_after (pre ++ [b]) = Some BELOW /\
   run_log (pre ++ [b]) = run_log pre ++ [SELL_on (date b) (close b)] /\
   final_position (pre ++ [b]) = 0)
  \/
  (final_position pre = 0 /\ ~ short_above (pre ++ [b]) /\
   relation_after pre <> Some ABOVE /\
   relation_after (pre ++ [b]) <> Some ABOVE /\
   run_log (pre ++ [b]) = run_log pre /\
   final_position (pre ++ [b]) = 0).
Proof.
  rewrite log_snoc, position_snoc, relation_snoc.
  pose proof (position_relation pre) as Inv.
  destruct (short_at (pre ++ [b])) as [s |] eqn:Es;
    destruct (long_at (pre ++ [b])) as [l |] eqn:El.
  - pose proof (short_above_compare _ _ _ Es El) as Ha.
    pose proof (short_below_compare _ _ _ Es El) as Hb.
    unfold position_on, signal_on.
    rewrite gt_value_compare, lt_value_compare. cbn [observe].
    destruct (s ?= l)%Q eqn:C.
    + destruct Inv as [[Hp Hr] | [Hp Hr]]; rewrite Hp.
      * right; left. rewrite app_nil_r. repeat split; trivial.
        intros H. apply Hb in H. discriminate.
      * right; right; right. rewrite app_nil_r. repeat split; trivial.
        intros H. apply Ha in H. discriminate.
    + destruct Inv as [[Hp Hr] | [Hp Hr]]; rewrite Hp; cbn.
      * right; right; left. repeat split; trivial. now apply Hb.
      * right; right; right. rewrite app_nil_r. repeat split; trivial;
          try discriminate.
        intros H. apply Ha in H. discriminate.
    + destruct Inv as [[Hp Hr] | [Hp Hr]]; rewrite Hp; cbn.
      * right; left. rewrite app_nil_r. repeat split; trivial.
        intros H. apply Hb in H. discriminate.
      * left. repeat split; trivial. now apply Ha.
  - right; right; right.
    destruct Inv as [[_ Hr] | [Hp Hr]];
      [exfalso; eapply cold_after_defined; eauto |].
    rewrite Hp. cbn. rewrite app_nil_r. repeat split; trivial;
      try discriminate.
    apply cold_not_above; auto.
  - right; right; right.
    destruct Inv as [[_ Hr] | [Hp Hr]];
      [exfalso; eapply cold_after_defined; eauto |].
    rewrite Hp. cbn. rewrite app_nil_r. repeat split; trivial;
      try discriminate.
    apply cold_not_above; auto.
  - right; right; right.
    destruct Inv as [[_ Hr] | [Hp Hr]];
      [exfalso; eapply cold_after_defined; eauto |].
    rewrite Hp. cbn. rewrite app_nil_r. repeat split; trivial;
      try discriminate.
    apply cold_not_above; auto.
Qed.

(** Appending to the session is appending to the log of the run. *)
Lemma appends_log (ss : Session) (pre : list Bar) (b : Bar) (m : Message) :
  appends ss pre b m <-> run_log (pre ++ [b]) = run_log pre ++ [m].
Proof.
  unfold appends. rewrite !run_messages_any, <- app_assoc.
  split; intros H; [now apply app_inv_head in H | now rewrite H].
Qed.

Lemma is_flat_position (ss : Session) (series : list Bar) :
  is_flat ss series <-> final_position series = 0.
Proof.
  unfold is_flat, in_position. rewrite run_position_any.
  destruct (Z.eqb_spec (final_position series) 0); cbn; split;
    intros; congruence.
Qed.

Lemma is_long_position (ss : Session) (series : list Bar) :
  is_long ss series <-> final_position series = 1.
Proof.
  unfold is_long, in_position. rewrite run_position_any.
  destruct (position_flat_or_long series) as [-> | ->]; cbn; split;
    intros; congruence.
Qed.

Lemma snoc_same_absurd {A : Type} (l : list A) (m : A) : l = l ++ [m] -> False.
Proof.
  intros H. apply (f_equal (@length A)) in H.
  rewrite length_app in H. cbn in H. lia.
Qed.

End StepView.

(** The four cases of [step_view], with the facts of each named. *)
Ltac bar_cases pre b :=
  destruct (step_view pre b)
    as [(Hp & Hs & Hr & Hr' & Hl & Hp') | [(Hp & Hs & Hr & Hr' & Hl & Hp')
      | [(Hp & Hs & Hr & Hr' & Hl & Hp') | (Hp & Hs & Hr & Hr' & Hl & Hp')]]].

(** * The claims *)

Section Signals.

Import Crossover.

(** C1, as stated, fails.  On the 30th bar of a steadily rising series,
    the first bar on which both averages are defined, the strategy
    appends a BUY and holds one unit although no relation was defined on
    the bar before, so that nothing crossed. *)
Lemma buy_without_cross :
  ~ (emits_BUY None (series_of rising 29) (bar_of rising 30) <->
     transitioned_to ABOVE (series_of rising 29) (bar_of rising 30) /\
     is_flat None (series_of rising 29)).
Proof.
  intros [H _].
  assert (B : emits_BUY None (series_of rising 29) (bar_of rising 30)).
  { split; vm_compute; reflexivity. }
  destruct (H B) as [[Hprior _] _].
  vm_compute in Hprior. discriminate.
Qed.

(** C1, amended.  On every bar with both averages defined, the strategy
    appends a BUY carrying the bar's date and close and comes to hold one
    unit if and only if the short average is strictly above the long
    average on that bar and nothing is held; and that is the case if and
    only if nothing is held and the relation becomes above, either from
    below or from not having been defined yet. *)
Theorem buy_iff_above_and_flat (ss : Session) (pre : list Bar) (b : Bar) :
  both_defined (pre ++ [b]) ->
  (emits_BUY ss pre b <-> short_above (pre ++ [b]) /\ is_flat ss pre) /\
  (emits_BUY ss pre b <->
   (transitioned_to ABOVE pre b \/ first_above pre b) /\ is_flat ss pre).
Proof.
  intros _. unfold emits_BUY, transitioned_to, first_above.
  rewrite appends_log, is_flat_position, run_position_any. cbn [opposite].
  bar_cases pre b;
    rewrite Hl, Hp', Hp; try rewrite Hr'.
  - split; (split; [intros _ | intros _; now split]).
    + now split.
    + split; [| reflexivity].
      destruct (relation_after pre) as [[|] |];
        [now contradiction Hr | left; now split | right; now split].
  - split; (split; [intros [H _]; now apply snoc_same_absurd in H |]).
    + intros [_ H]. discriminate.
    + intros [_ H]. discriminate.
  - split; (split; [intros [_ H]; discriminate |]).
    + intros [_ H]. discriminate.
    + intros [_ H]. discriminate.
  - split; (split; [intros [H _]; now apply snoc_same_absurd in H |]).
    + intros [H _]. contradiction.
    + intros [[[_ H] | [_ H]] _]; contradiction.
Qed.

Lemma buy_iff_above_and_flat_witness :
  both_defined (series_of rising 29 ++ [bar_of rising 30]) /\
  (emits_BUY None (series_of rising 29) (bar_of rising 30) <->
   short_above (series_of rising 29 ++ [bar_of rising 30]) /\
   is_flat None (series_of rising 29)).
Proof.
  assert (D : both_defined (series_of rising 29 ++ [bar_of rising 30])).
  { split; vm_compute; discriminate. }
  split; [exact D |].
  exact (proj1 (buy_iff_above_and_flat None (series_of rising 29)
                  (bar_of rising 30) D)).
Defined.

(** C2.  On every bar with both averages defined, the strategy appends a
    SELL carrying the bar's date and close and comes to hold nothing if
    and only if the relation turns from above to below on that bar and a
    unit is held. *)
Theorem sell_iff_cross_below_and_long (ss : Session) (pre : list Bar)
        (b : Bar) :
  both_defined (pre ++ [b]) ->
  (emits_SELL ss pre b <-> transitioned_to BELOW pre b /\ is_long ss pre).
Proof.
  intros _. unfold emits_SELL, transitioned_to.
  rewrite appends_log, is_long_position, run_position_any. cbn [opposite].
  bar_cases pre b;
    rewrite Hl, Hp', Hp.
  - split; [intros [_ H]; discriminate | intros [_ H]; discriminate].
  - split; [intros [_ H]; discriminate |].
    rewrite Hr'. intros [[_ H] _]. discriminate.
  - rewrite Hr, Hr'. split; intros _; repeat split.
  - split; [intros [H _]; now apply snoc_same_absurd in H |].
    intros [_ H]. discriminate.
Qed.

Lemma sell_iff_cross_below_and_long_witness :
  both_defined (series_of peak 44 ++ [bar_of peak 45]) /\
  (emits_SELL None (series_of peak 44) (bar_of peak 45) <->
   transitioned_to BELOW (series_of peak 44) (bar_of peak 45) /\
   is_long None (series_of peak 44)).
Proof.
  assert (D : both_defined (series_of peak 44 ++ [bar_of peak 45])).
  { split; vm_compute; discriminate. }
  split; [exact D |].
  exact (sell_iff_cross_below_and_long None (series_of peak 44)
           (bar_of peak 45) D).
Defined.

(** C3, as stated, fails.  The 30th bar of a steadily rising series
    reports a signal although the relation on the bar before is not
    defined, so that no flip took place. *)
Lemma signal_on_first_defined_bar :
  ~ (reports_signal (series_of rising 29) (bar_of rising 30) ->
     exists r, transitioned_to r (series_of rising 29) (bar_of rising 30)).
Proof.
  intros H.
  assert (R : reports_signal (series_of rising 29) (bar_of rising 30)).
  { exists (BUY_on 30 (rising 30)). vm_compute. reflexivity. }
  destruct (H R) as [r [Hprior _]].
  vm_compute in Hprior. discriminate.
Qed.

(** C3, amended.  For every series and every bar, an entry is reported on
    the bar exactly when the relation on it is defined and the relation
    on the bar before is either its opposite or, the new relation being
    above, not defined yet; the entry is a BUY for above and a SELL for
    below.  So a BUY is reported on the first bar on which both averages
    are defined when the short average is above the long one there, and a
    SELL never is. *)
Theorem signal_iff_relation_changes (pre : list Bar) (b : Bar) (m : Message) :
  run_log (pre ++ [b]) = run_log pre ++ [m] <->
  exists r,
    relation_after (pre ++ [b]) = Some r /\
    (relation_after pre = Some (opposite r) \/
     (relation_after pre = None /\ r = ABOVE)) /\
    m = message_of r b.
Proof.
  bar_cases pre b;
    rewrite Hl; try rewrite Hr'.
  - split.
    + intros H. apply app_inv_head in H. injection H as <-.
      exists ABOVE. split; [reflexivity |]. split; [| reflexivity].
      destruct (relation_after pre) as [[|] |];
        [now contradiction Hr | now left | now right].
    + intros (r & Er & _ & ->). now injection Er as <-.
  - split; [intros H; now apply snoc_same_absurd in H |].
    intros (r & Er & [H | [H _]] & _); injection Er as <-;
      rewrite Hr in H; discriminate.
  - split.
    + intros H. apply app_inv_head in H. injection H as <-.
      exists BELOW. rewrite Hr. repeat split. now left.
    + intros (r & Er & _ & ->). now injection Er as <-.
  - split; [intros H; now apply snoc_same_absurd in H |].
    intros (r & Er & [H | [H ->]] & _).
    + destruct r; [now contradiction Hr' | now contradiction Hr].
    + now contradiction Hr'.
Qed.

End Signals.

(** ** Runs and the session *)

Section Sessions.

Lemma strategy_ext (a b : Strategy) :
  ma_short a = ma_short b -> ma_long a = ma_long b ->
  position a = position b -> a = b.
Proof. destruct a, b; cbn; intros; congruence. Qed.

(** The strategy object a run ends with is the same in every session. *)
Lemma run_strategy_any (ss ss' : Session) (series : list Bar) :
  fst (cerebro_run ss series) = fst (cerebro_run ss' series).
Proof.
  apply strategy_ext.
  - now rewrite !run_ma_short.
  - now rewrite !run_ma_long.
  - now rewrite !run_position_any.
Qed.

(** C4, as stated, fails.  Running the 30 rising bars a second time in
    the same session leaves two entries in the list where the first run
    left one. *)
Lemma second_run_accumulates :
  ~ (session_messages
       (snd (then_run None (series_of rising 30) (series_of rising 30))) =
     session_messages (snd (cerebro_run None (series_of rising 30))) /\
     position (fst (then_run None (series_of rising 30) (series_of rising 30))) =
     position (fst (cerebro_run None (series_of rising 30)))).
Proof. intros [H _]. vm_compute in H. discriminate. Qed.

(** C4, amended.  Running the engine twice over the same series ends with
    the same strategy object, hence the same averages and final position,
    and appends the same entries each time; the list is kept by the
    session, so after the second run it holds the entries of the first
    run followed by the same entries again. *)
Theorem rerun_appends_same_log (ss : Session) (series : list Bar) :
  fst (then_run ss series series) = fst (cerebro_run ss series) /\
  session_messages (snd (cerebro_run ss series)) =
    session_messages ss ++ run_log series /\
  session_messages (snd (then_run ss series series)) =
    session_messages (snd (cerebro_run ss series)) ++ run_log series.
Proof.
  unfold then_run. split; [apply run_strategy_any |].
  split; apply run_messages_any.
Qed.

(** C5, as stated, fails.  After a run over 30 rising bars, a run over 40
    level bars, which reports nothing, shows the entry of the first. *)
Lemma log_shared_between_runs :
  ~ (session_messages
       (snd (then_run None (series_of rising 30) (series_of level 40))) =
     run_log (series_of level 40)).
Proof. intros H. vm_compute in H. discriminate. Qed.

(** C5, amended.  Of two runs in one session, the second ends with the
    strategy object, averages and position it would end with alone, and
    appends the entries it would report alone; the list is shared, and
    after the second run holds the entries of the first run followed by
    those of the second. *)
Theorem runs_share_only_the_log (ss : Session) (first second : list Bar) :
  fst (then_run ss first second) = fst (cerebro_run None second) /\
  session_messages (snd (then_run ss first second)) =
    (session_messages ss ++ run_log first) ++ run_log second.
Proof.
  unfold then_run. split; [apply run_strategy_any |].
  now rewrite !run_messages_any.
Qed.

End Sessions.

(** ** Warm-up of the averages *)

Section WarmUp.

Lemma lastn_suffix {A : Type} (n : nat) (l : list A) :
  exists front, l = front ++ MA.lastn n l.
Proof.
  exists (firstn (length l - n) l). unfold MA.lastn.
  now rewrite firstn_skipn.
Qed.

Lemma fold_left_Qplus (l : list Q) (a : Q) :
  (fold_left Qplus l a == a + MA.Qsum l)%Q.
Proof.
  revert a. induction l as [| x l IH]; intros a; cbn.
  - ring.
  - fold (MA.Qsum l). rewrite IH. ring.
Qed.

Lemma mean_over_is_arithmetic_mean (l : list Q) :
  (MA.mean_over (length l) l == arithmetic_mean l)%Q.
Proof.
  unfold MA.mean_over, arithmetic_mean, total.
  rewrite fold_left_Qplus. unfold Qdiv. ring.
Qed.

(** C6.  For every period [p] of at least 1 and every sequence of closes
    fed to an average of that period: while fewer closes than the period
    have been fed the value is undefined; from the [p]-th on it is
    defined and equal, as a rational, to the arithmetic mean of the last
    [p] closes fed, the mean being the one of the specification and the
    last [p] closes being told by length alone.  The two averages of the
    strategy are each what an average of its period fed alone would
    be. *)
Theorem average_warm_up_and_mean (p : nat) (cs : list Q) :
  (1 <= p)%nat ->
  ((length cs < p)%nat -> MA.value (MA.feed (MA.new p) cs) = None) /\
  ((p <= length cs)%nat ->
   exists (front recent : list Q) (v : Q),
     cs = front ++ recent /\ length recent = p /\
     MA.value (MA.feed (MA.new p) cs) = Some v /\
     (v == arithmetic_mean recent)%Q) /\
  (forall (ss : Session) (series : list Bar),
     ma_short (fst (cerebro_run ss series)) =
       MA.feed (MA.new 15) (closes series) /\
     ma_long (fst (cerebro_run ss series)) =
       MA.feed (MA.new 30) (closes series)).
Proof.
  intros Hp. split; [| split].
  - intros H. rewrite value_feed by exact Hp.
    destruct (Nat.ltb_spec (length cs) p); [reflexivity | lia].
  - intros H. destruct (lastn_suffix p cs) as [front E].
    assert (L : length (MA.lastn p cs) = p) by (rewrite lastn_length; lia).
    exists front, (MA.lastn p cs), (MA.mean_over p (MA.lastn p cs)).
    split; [exact E |]. split; [exact L |]. split.
    + rewrite value_feed by exact Hp.
      destruct (Nat.ltb_spec (length cs) p); [lia | reflexivity].
    + rewrite <- L at 1. apply mean_over_is_arithmetic_mean.
  - intros ss series. split; [apply run_ma_short | apply run_ma_long].
Qed.

Lemma average_warm_up_and_mean_witness :
  (1 <= 3)%nat /\
  MA.value (MA.feed (MA.new 3) [1; 2]%Q) = None /\
  exists v : Q,
    MA.value (MA.feed (MA.new 3) [1; 2; 3; 5]%Q) = Some v /\
    (v == 10 # 3)%Q.
Proof.
  assert (H : (1 <= 3)%nat) by lia.
  split; [exact H |]. split.
  - apply (proj1 (average_warm_up_and_mean 3 [1; 2]%Q H)). cbn. lia.
  - destruct (proj1 (proj2 (average_warm_up_and_mean 3 [1; 2; 3; 5]%Q H)))
      as (front & recent & v & E & L & Ev & Em); [cbn; lia |].
    exists v. split; [exact Ev |].
    assert (R : recent = [2; 3; 5]%Q).
    { destruct front as [| a [| b front]].
      - cbn in E. subst recent. discriminate L.
      - cbn in E. now injection E as _ <-.
      - apply (f_equal (@length Q)) in E. cbn in E.
        rewrite length_app in E. lia. }
    rewrite Em, R. reflexivity.
Defined.

End WarmUp.

(** ** The shape of the log and the position *)

Section Alternation.

Import Crossover.

Lemma alternates_snoc (e : bool) (log : list Message) (m : Message) :
  alternates e (log ++ [m]) =
  alternates e log && Bool.eqb (is_buy m) (expected_next e log).
Proof.
  revert e. induction log as [| a log IH]; intros e.
  - destruct m, e; reflexivity.
  - destruct a; cbn [app alternates expected_next is_buy negb];
      rewrite IH; now rewrite andb_assoc.
Qed.

Lemma expected_next_snoc (e : bool) (log : list Message) (m : Message) :
  expected_next e (log ++ [m]) = negb (is_buy m).
Proof.
  revert e. induction log as [| a log IH]; intros e; [reflexivity |].
  cbn [app expected_next]. apply IH.
Qed.

Lemma last_is_BUY_snoc (log : list Message) (m : Message) :
  last_is_BUY (log ++ [m]) = is_buy m.
Proof.
  unfold last_is_BUY. rewrite last_last.
  destruct (log ++ [m]) eqn:E; [| reflexivity].
  now destruct log.
Qed.

(** The log of a run alternates from a BUY, and its last entry tells
    the position. *)
Lemma log_position (series : list Bar) :
  alternates true (run_log series) = true /\
  expected_next true (run_log series) = (final_position series =? 0) /\
  last_is_BUY (run_log series) = (final_position series =? 1).
Proof.
  induction series as [| b pre IH] using rev_ind.
  - repeat split.
  - destruct IH as (Ha & He & Hl).
    rename Hl into Hlast.
    bar_cases pre b; rewrite Hl, Hp';
      rewrite ?alternates_snoc, ?expected_next_snoc, ?last_is_BUY_snoc;
      rewrite ?Ha, ?He, ?Hlast, ?Hp; repeat split.
Qed.

(** C7.  In every run and at every point of it, the position is nothing
    or one unit, never a negative size; the entries the run appends to
    the session alternate BUY, SELL, BUY, ..., the first being a BUY. *)
Theorem one_position_and_alternating_log (ss : Session) (series : list Bar) :
  session_messages (snd (cerebro_run ss series)) =
    session_messages ss ++ run_log series /\
  alternates true (run_log series) = true /\
  (forall k : nat,
     position (fst (cerebro_run ss (firstn k series))) = 0 \/
     position (fst (cerebro_run ss (firstn k series))) = 1).
Proof.
  split; [apply run_messages_any |].
  split; [apply log_position |].
  intros k. rewrite run_position_any. apply position_flat_or_long.
Qed.

(** C10.  After the last bar of any run, one unit is held if and only if
    the log of the run is not empty and ends with a BUY; otherwise, the
    log being empty or ending with a SELL, nothing is held. *)
Theorem final_position_is_last_entry (ss : Session) (series : list Bar) :
  (position (fst (cerebro_run ss series)) = 1 <->
   last_is_BUY (run_log series) = true) /\
  (position (fst (cerebro_run ss series)) = 0 <->
   last_is_BUY (run_log series) = false).
Proof.
  rewrite run_position_any.
  destruct (log_position series) as (_ & _ & ->).
  destruct (position_flat_or_long series) as [-> | ->]; cbn.
  - split; split; (discriminate || reflexivity).
  - split; split; (discriminate || reflexivity).
Qed.

End Alternation.

(** ** Equal averages *)

Section Equality.

Import Crossover.

(** C8.  On a bar where the two averages are defined and equal, whatever
    the strategy holds: the list of messages is as it was, the position
    is as it was, and the relation keeps its prior value. *)
Theorem equal_averages_change_nothing
        (e : Strategy * Session) (b : Bar) (s l : Q)
        (prior : option Relation) :
  MA.value (MA.update (ma_short (fst e)) (close b)) = Some s ->
  MA.value (MA.update (ma_long (fst e)) (close b)) = Some l ->
  (s == l)%Q ->
  session_messages (snd (engine_step e b)) = session_messages (snd e) /\
  position (fst (engine_step e b)) = position (fst e) /\
  observe prior (Some s) (Some l) = prior.
Proof.
  intros Hs Hl Heq. apply Qeq_alt in Heq.
  unfold engine_step, warm, next. cbn [advance ma_short ma_long position].
  rewrite Hs, Hl, gt_value_compare, lt_value_compare. cbn [observe].
  rewrite Heq. repeat split.
Qed.

Lemma equal_averages_change_nothing_witness :
  let e := cerebro_run (Some [BUY_on 7 (3 # 1)]) (series_of level 29) in
  let b := bar_of level 30 in
  session_messages (snd (engine_step e b)) = session_messages (snd e) /\
  position (fst (engine_step e b)) = position (fst e) /\
  observe (Some BELOW) (Some (75 # 15)) (Some (150 # 30)) = Some BELOW.
Proof.
  intros e b.
  apply (equal_averages_change_nothing e b (75 # 15) (150 # 30) (Some BELOW)).
  - vm_compute. reflexivity.
  - vm_compute. reflexivity.
  - reflexivity.
Defined.

End Equality.

(** ** Dates *)

Section Dates.







End Dates.

(** * Further properties of the run *)

(** ** Before both averages are defined *)

Section ColdStart.

Lemma next_binds_messages (b : Bar) (self : Strategy) (ss : Session) :
  snd (next b self ss) <> None.
Proof.
  unfold next.
  destruct (gt_value _ _); [destruct (negb _); discriminate |].
  destruct (lt_value _ _); [destruct (in_position _) |]; discriminate.
Qed.

Lemma warm_length (ss : Session) (pre : list Bar) (b : Bar) :
  warm (advance (fst (cerebro_run ss pre)) (close b)) =
  negb (length (pre ++ [b]) <? 30)%nat.
Proof.
  unfold warm. cbn [advance ma_short ma_long].
  rewrite <- step_ma_short, <- step_ma_long, <- run_snoc.
  rewrite run_ma_short, run_ma_long.
  fold (short_at (pre ++ [b])). fold (long_at (pre ++ [b])).
  rewrite short_at_length, long_at_length.
  destruct (Nat.ltb_spec (length (pre ++ [b])) 30) as [H | H].
  - now destruct (length (pre ++ [b]) <? 15)%nat.
  - destruct (Nat.ltb_spec (length (pre ++ [b])) 15); [lia | reflexivity].
Qed.

(** X1.
    The session a run leaves behind.  A series of fewer than 30 bars
    never reaches [next]: the session is left exactly as it was found,
    the key [messages] not even created.  From 30 bars on the key is
    bound, to what it held before followed by the log of the run. *)
Theorem session_after_run (ss : Session) (series : list Bar) :
  snd (cerebro_run ss series) =
  if (length series <? 30)%nat then ss
  else Some (session_messages ss ++ run_log series).
Proof.
  induction series as [| b pre IH] using rev_ind; [reflexivity |].
  pose proof (run_messages_any ss (pre ++ [b])) as M.
  pose proof (warm_length ss pre b) as W.
  rewrite run_snoc in M |- *. unfold engine_step in M |- *.
  destruct (Nat.ltb_spec (length (pre ++ [b])) 30) as [H | H];
    rewrite W in M |- *; cbn [negb] in M |- *.
  - cbn [snd]. rewrite IH. rewrite length_app in H. cbn in H.
    destruct (Nat.ltb_spec (length pre) 30); [reflexivity | lia].
  - pose proof (next_binds_messages b
                  (advance (fst (cerebro_run ss pre)) (close b))
                  (snd (cerebro_run ss pre))) as K.
    destruct (snd (next b _ _)) as [ms |]; [| now contradiction K].
    cbn in M. now rewrite M.
Qed.

Lemma cold_run (series : list Bar) :
  (length series < 30)%nat ->
  run_log series = [] /\ final_position series = 0.
Proof.
  induction series as [| b pre IH] using rev_ind; [now split |].
  rewrite length_app. cbn [length]. intros H.
  destruct IH as [IHl IHp]; [lia |].
  rewrite log_snoc, position_snoc, IHl, IHp, long_at_length.
  rewrite length_app. cbn [length].
  destruct (Nat.ltb_spec (length pre + 1) 30); [| lia].
  unfold signal_on, position_on.
  destruct (short_at (pre ++ [b])); now split.
Qed.

End ColdStart.

(** ** The log against the series *)

Section LogAndSeries.

(** X2.
    No look-ahead: the log of a series begins with the log of each of
    its beginnings, so that bars added at the end never change or remove
    an entry already reported. *)
Theorem log_only_grows (pre post : list Bar) :
  exists rest, run_log (pre ++ post) = run_log pre ++ rest.
Proof.
  induction post as [| b post [rest IH]] using rev_ind.
  - exists []. now rewrite !app_nil_r.
  - rewrite app_assoc, log_snoc, IH, <- app_assoc. eauto.
Qed.

Lemma subsequence_nil_l {A : Type} (l : list A) : subsequence [] l.
Proof. induction l; now constructor. Qed.

Lemma subsequence_snoc_skip {A : Type} (l1 l2 : list A) (x : A) :
  subsequence l1 l2 -> subsequence l1 (l2 ++ [x]).
Proof.
  induction 1 as [| y l1 l2 _ IH | y l1 l2 _ IH]; cbn.
  - apply subsequence_skip, subsequence_nil.
  - now apply subsequence_skip.
  - now apply subsequence_take.
Qed.

Lemma subsequence_snoc_take {A : Type} (l1 l2 : list A) (x : A) :
  subsequence l1 l2 -> subsequence (l1 ++ [x]) (l2 ++ [x]).
Proof.
  induction 1 as [| y l1 l2 _ IH | y l1 l2 _ IH]; cbn.
  - apply subsequence_take, subsequence_nil.
  - now apply subsequence_skip.
  - now apply subsequence_take.
Qed.

Lemma signal_on_bar (sv lv : option Q) (p : Z) (b : Bar) :
  signal_on sv lv p b = [] \/ map entry_bar (signal_on sv lv p b) = [b].
Proof.
  unfold signal_on. destruct b as [d c].
  destruct (gt_value sv lv); [destruct (p =? 0); auto |].
  destruct (lt_value sv lv); [destruct (p =? 0) |]; auto.
Qed.

(** X3.
    Every entry carries the date and the close of a bar of the series,
    no bar gives two entries, none of the first 29 bars gives any, and
    the entries come in the order of the bars. *)
Theorem entries_follow_bars (series : list Bar) :
  subsequence (map entry_bar (run_log series)) (skipn 29 series).
Proof.
  induction series as [| b pre IH] using rev_ind; [constructor |].
  destruct (Nat.lt_ge_cases (length pre) 29) as [H | H].
  - destruct (cold_run (pre ++ [b])) as [-> _].
    + rewrite length_app. cbn. lia.
    + apply subsequence_nil_l.
  - rewrite skipn_app.
    replace (29 - length pre)%nat with 0%nat by lia. cbn [skipn].
    rewrite log_snoc, map_app.
    destruct (signal_on_bar (short_at (pre ++ [b])) (long_at (pre ++ [b]))
                (final_position pre) b) as [-> | ->].
    + cbn [map]. rewrite app_nil_r. now apply subsequence_snoc_skip.
    + now apply subsequence_snoc_take.
Qed.

(** X4.
    Every SELL closes an earlier BUY: the run has as many BUY entries as
    SELL entries, and one more while a unit is held. *)
Theorem buys_match_sells (series : list Bar) :
  Z.of_nat (buys (run_log series)) =
  Z.of_nat (sells (run_log series)) + final_position series.
Proof.
  unfold buys, sells.
  induction series as [| b pre IH] using rev_ind; [reflexivity |].
  bar_cases pre b; rewrite Hl, Hp'; rewrite Hp in IH;
    rewrite ?filter_app, ?length_app; cbn; lia.
Qed.

End LogAndSeries.

(** ** Sums and means of windows *)

Section Windows.

Lemma Qsum_app (l1 l2 : list Q) :
  (MA.Qsum (l1 ++ l2) == MA.Qsum l1 + MA.Qsum l2)%Q.
Proof.
  induction l1 as [| x l1 IH]; cbn.
  - now rewrite Qplus_0_l.
  - fold (MA.Qsum (l1 ++ l2)). fold (MA.Qsum l1). rewrite IH. ring.
Qed.

Lemma Qsum_level (c : Q) (l : list Q) :
  Forall (fun x => (x == c)%Q) l ->
  (MA.Qsum l == inject_Z (Z.of_nat (length l)) * c)%Q.
Proof.
  induction 1 as [| x l Hx _ IH].
  - cbn. ring.
  - cbn [MA.Qsum fold_right length]. fold (MA.Qsum l).
    rewrite IH, Hx, Nat2Z.inj_succ, <- Z.add_1_r, inject_Z_plus. ring.
Qed.

Lemma lastn_Forall {A : Type} (P : A -> Prop) (n : nat) (l : list A) :
  Forall P l -> Forall P (MA.lastn n l).
Proof.
  intros H. rewrite <- (firstn_skipn (length l - n) l) in H.
  now apply Forall_app in H.
Qed.

Lemma mean_level (c : Q) (p : nat) (l : list Q) :
  (1 <= p)%nat -> length l = p ->
  Forall (fun x => (x == c)%Q) l ->
  (MA.mean_over p l == c)%Q.
Proof.
  intros Hp Hl H. unfold MA.mean_over.
  rewrite (Qsum_level c l H), Hl, Qmult_comm.
  apply Qdiv_mult_l.
  intros E. unfold Qeq in E. cbn in E. lia.
Qed.

(** The trailing 15 closes are the later half of the trailing 30. *)
Lemma lastn_halves {A : Type} (l : list A) :
  (30 <= length l)%nat ->
  MA.lastn 30 l = firstn 15 (MA.lastn 30 l) ++ MA.lastn 15 l /\
  length (firstn 15 (MA.lastn 30 l)) = 15%nat /\
  length (MA.lastn 15 l) = 15%nat.
Proof.
  intros H.
  assert (E : MA.lastn 15 l = skipn 15 (MA.lastn 30 l)).
  { unfold MA.lastn. rewrite skipn_skipn. f_equal. lia. }
  rewrite E, firstn_skipn.
  split; [reflexivity |].
  rewrite length_firstn, length_skipn, lastn_length. lia.
Qed.

Lemma sorted_prefix {A : Type} (R : A -> A -> Prop) (l1 l2 : list A) :
  StronglySorted R (l1 ++ l2) -> StronglySorted R l1.
Proof.
  induction l1 as [| a l1 IH]; cbn; intros H; [constructor |].
  apply StronglySorted_inv in H. destruct H as [H1 H2].
  apply Forall_app in H2. constructor; [now apply IH | tauto].
Qed.

Lemma sorted_suffix {A : Type} (R : A -> A -> Prop) (l1 l2 : list A) :
  StronglySorted R (l1 ++ l2) -> StronglySorted R l2.
Proof.
  induction l1 as [| a l1 IH]; cbn; intros H; [exact H |].
  apply StronglySorted_inv in H. now apply IH.
Qed.

Lemma sorted_across {A : Type} (R : A -> A -> Prop) (l1 l2 : list A) :
  StronglySorted R (l1 ++ l2) ->
  forall a b, In a l1 -> In b l2 -> R a b.
Proof.
  induction l1 as [| x l1 IH]; cbn; intros H a b Ha Hb; [contradiction |].
  apply StronglySorted_inv in H. destruct H as [H1 H2].
  destruct Ha as [<- | Ha]; [| now apply IH].
  apply Forall_app in H2. destruct H2 as [_ H2].
  rewrite Forall_forall in H2. now apply H2.
Qed.

Lemma lastn_sorted {A : Type} (R : A -> A -> Prop) (n : nat) (l : list A) :
  StronglySorted R l -> StronglySorted R (MA.lastn n l).
Proof.
  intros H. rewrite <- (firstn_skipn (length l - n) l) in H.
  now apply sorted_suffix in H.
Qed.

Lemma Qsum_below (l1 l2 : list Q) :
  length l1 = length l2 ->
  (forall a b, In a l1 -> In b l2 -> (a < b)%Q) ->
  (MA.Qsum l1 <= MA.Qsum l2)%Q.
Proof.
  revert l2. induction l1 as [| a l1 IH]; intros [| b l2] E H;
    try discriminate; try apply Qle_refl.
  cbn. fold (MA.Qsum l1). fold (MA.Qsum l2).
  assert (a < b)%Q by (apply H; now left).
  assert (MA.Qsum l1 <= MA.Qsum l2)%Q.
  { apply IH; [now injection E | intros; apply H; now right]. }
  lra.
Qed.

Lemma Qsum_strictly_below (l1 l2 : list Q) :
  length l1 = length l2 -> l1 <> [] ->
  (forall a b, In a l1 -> In b l2 -> (a < b)%Q) ->
  (MA.Qsum l1 < MA.Qsum l2)%Q.
Proof.
  destruct l1 as [| a l1], l2 as [| b l2]; intros E N H;
    try discriminate; try now contradiction N.
  cbn. fold (MA.Qsum l1). fold (MA.Qsum l2).
  assert (a < b)%Q by (apply H; now left).
  assert (MA.Qsum l1 <= MA.Qsum l2)%Q.
  { apply Qsum_below; [now injection E | intros; apply H; now right]. }
  lra.
Qed.

End Windows.

(** ** Series of a given shape *)

Section Shapes.

Lemma above_not_below (series : list Bar) :
  short_above series -> short_below series -> False.
Proof.
  intros (s & l & Es & El & H) (s' & l' & Es' & El' & H').
  rewrite Es in Es'. rewrite El in El'.
  injection Es' as <-. injection El' as <-. lra.
Qed.

Lemma level_averages (c : Q) (series : list Bar) (s l : Q) :
  all_closes_equal c series ->
  short_at series = Some s -> long_at series = Some l ->
  (s == c)%Q /\ (l == c)%Q.
Proof.
  unfold all_closes_equal. intros H.
  rewrite short_at_length, long_at_length.
  destruct (length series <? 15)%nat; [discriminate |].
  destruct (Nat.ltb_spec (length series) 30) as [| H30]; [discriminate |].
  assert (L : length (closes series) = length series)
    by (unfold closes; apply length_map).
  intros [= <-] [= <-]. split.
  - apply mean_level; [lia | rewrite lastn_length; lia |].
    now apply lastn_Forall.
  - apply mean_level; [lia | rewrite lastn_length; lia |].
    now apply lastn_Forall.
Qed.

(** X5.
    A series whose closes are all equal reports nothing and ends
    flat, however long it is. *)
Theorem level_series_is_silent (c : Q) (series : list Bar) :
  all_closes_equal c series ->
  run_log series = [] /\ final_position series = 0.
Proof.
  induction series as [| b pre IH] using rev_ind; [now split |].
  intros H.
  assert (Hpre : all_closes_equal c pre).
  { unfold all_closes_equal in *. rewrite closes_snoc in H.
    now apply Forall_app in H. }
  destruct (IH Hpre) as [IHl IHp].
  assert (N : ~ short_above (pre ++ [b])).
  { intros (s & l & Es & El & Hlt).
    destruct (level_averages c _ s l H Es El) as [E1 E2].
    rewrite E1, E2 in Hlt. now apply Qlt_irrefl in Hlt. }
  bar_cases pre b; try contradiction; try congruence.
  split; congruence.
Qed.

Lemma level_series_is_silent_witness :
  all_closes_equal 5 (series_of level 40) /\
  run_log (series_of level 40) = [] /\
  final_position (series_of level 40) = 0.
Proof.
  assert (H : all_closes_equal 5 (series_of level 40)).
  { unfold all_closes_equal. apply Forall_forall. intros x Hx.
    unfold closes, series_of in Hx. rewrite map_map in Hx.
    apply in_map_iff in Hx. destruct Hx as (i & <- & _). reflexivity. }
  split; [exact H |].
  exact (level_series_is_silent 5 (series_of level 40) H).
Defined.

(** The two means of a series of at least 30 bars, with the sums of the
    two halves of the trailing 30 closes. *)
Lemma averages_by_halves (series : list Bar) :
  (30 <= length series)%nat ->
  exists older newer : list Q,
    MA.lastn 30 (closes series) = older ++ newer /\
    length older = 15%nat /\ length newer = 15%nat /\
    short_at series = Some (MA.Qsum newer * (1 # 15))%Q /\
    long_at series = Some (MA.Qsum (older ++ newer) * (1 # 30))%Q.
Proof.
  intros H.
  assert (L : length (closes series) = length series)
    by (unfold closes; apply length_map).
  destruct (lastn_halves (closes series)) as (E & L1 & L2); [lia |].
  exists (firstn 15 (MA.lastn 30 (closes series))),
         (MA.lastn 15 (closes series)).
  rewrite <- E, short_at_length, long_at_length.
  destruct (Nat.ltb_spec (length series) 15); [lia |].
  destruct (Nat.ltb_spec (length series) 30); [lia |].
  repeat split; assumption.
Qed.

Lemma uptrend_short_above (series : list Bar) :
  uptrend series -> (30 <= length series)%nat -> short_above series.
Proof.
  intros U H.
  destruct (averages_by_halves series H) as (A & B & E & LA & LB & Es & El).
  apply (lastn_sorted _ 30) in U. rewrite E in U.
  assert (S : (MA.Qsum A < MA.Qsum B)%Q).
  { apply Qsum_strictly_below; [congruence | now destruct A |].
    exact (sorted_across _ _ _ U). }
  exists (MA.Qsum B * (1 # 15))%Q, (MA.Qsum (A ++ B) * (1 # 30))%Q.
  split; [exact Es | split; [exact El |]].
  rewrite Qsum_app. lra.
Qed.

Lemma downtrend_short_below (series : list Bar) :
  downtrend series -> (30 <= length series)%nat -> short_below series.
Proof.
  intros D H.
  destruct (averages_by_halves series H) as (A & B & E & LA & LB & Es & El).
  apply (lastn_sorted _ 30) in D. rewrite E in D.
  assert (S : (MA.Qsum B < MA.Qsum A)%Q).
  { apply Qsum_strictly_below; [congruence | now destruct B |].
    intros b a Hb Ha. exact (sorted_across _ _ _ D a b Ha Hb). }
  exists (MA.Qsum B * (1 # 15))%Q, (MA.Qsum (A ++ B) * (1 # 30))%Q.
  split; [exact Es | split; [exact El |]].
  rewrite Qsum_app. lra.
Qed.

Lemma thirtieth_bar_snoc (pre : list Bar) (b : Bar) :
  (29 <= length pre)%nat ->
  firstn 1 (skipn 29 (pre ++ [b])) =
  if (length pre =? 29)%nat then [b] else firstn 1 (skipn 29 pre).
Proof.
  intros H. rewrite skipn_app.
  replace (29 - length pre)%nat with 0%nat by lia.
  change (skipn 0 [b]) with [b].
  destruct (Nat.eqb_spec (length pre) 29) as [E | E].
  - rewrite skipn_all2 by lia. reflexivity.
  - destruct (skipn 29 pre) as [| x rest] eqn:K; [| reflexivity].
    apply (f_equal (@length Bar)) in K. rewrite length_skipn in K.
    cbn in K. lia.
Qed.

(** X7.
    While every close is above all earlier ones, the only entry is a BUY
    on the 30th bar, at its date and close, and the unit is kept to the
    end; with fewer than 30 bars there is no entry. *)
Theorem uptrend_buys_once (series : list Bar) :
  uptrend series ->
  run_log series =
    map (fun b => BUY_on (date b) (close b)) (firstn 1 (skipn 29 series)) /\
  final_position series = (if (length series <? 30)%nat then 0 else 1).
Proof.
  induction series as [| b pre IH] using rev_ind; [now split |].
  intros U.
  assert (Upre : uptrend pre).
  { unfold uptrend in *. rewrite closes_snoc in U.
    now apply sorted_prefix in U. }
  destruct (IH Upre) as [IHl IHp].
  destruct (Nat.ltb_spec (length (pre ++ [b])) 30) as [H | H].
  - destruct (cold_run _ H) as [-> ->]. rewrite skipn_all2 by lia. now split.
  - pose proof (uptrend_short_above _ U H) as Above.
    rewrite length_app in H. cbn in H.
    rewrite thirtieth_bar_snoc by lia.
    bar_cases pre b; try contradiction;
      try (exfalso; now apply (above_not_below (pre ++ [b]))).
    + rewrite Hl, Hp', IHl. rewrite Hp in IHp.
      destruct (Nat.ltb_spec (length pre) 30); [| discriminate].
      destruct (Nat.eqb_spec (length pre) 29); [| lia].
      rewrite skipn_all2 by lia. now split.
    + rewrite Hl, Hp', IHl. rewrite Hp in IHp.
      destruct (Nat.ltb_spec (length pre) 30); [discriminate |].
      destruct (Nat.eqb_spec (length pre) 29); [lia |]. now split.
Qed.

Lemma uptrend_buys_once_witness :
  uptrend (series_of rising 35) /\
  run_log (series_of rising 35) =
    map (fun b => BUY_on (date b) (close b))
        (firstn 1 (skipn 29 (series_of rising 35))).
Proof.
  assert (U : uptrend (series_of rising 35)).
  { apply Sorted_StronglySorted; [intros x y z; apply Qlt_trans |].
    cbv [closes series_of seq map bar_of close rising].
    repeat (constructor; try reflexivity). }
  split; [exact U |].
  exact (proj1 (uptrend_buys_once (series_of rising 35) U)).
Defined.

(** X8.
    While every close is below all earlier ones, nothing is ever
    bought: the log is empty and the run ends flat. *)
Theorem downtrend_is_silent (series : list Bar) :
  downtrend series ->
  run_log series = [] /\ final_position series = 0.
Proof.
  induction series as [| b pre IH] using rev_ind; [now split |].
  intros D.
  assert (Dpre : downtrend pre).
  { unfold downtrend in *. rewrite closes_snoc in D.
    now apply sorted_prefix in D. }
  destruct (IH Dpre) as [IHl IHp].
  destruct (Nat.ltb_spec (length (pre ++ [b])) 30) as [H | H].
  - exact (cold_run _ H).
  - pose proof (downtrend_short_below _ D H) as Below.
    bar_cases pre b; try congruence.
    + exfalso. now apply (above_not_below (pre ++ [b])).
    + split; congruence.
Qed.

Lemma downtrend_is_silent_witness :
  downtrend (series_of falling 35) /\
  run_log (series_of falling 35) = [] /\
  final_position (series_of falling 35) = 0.
Proof.
  assert (D : downtrend (series_of falling 35)).
  { apply Sorted_StronglySorted; [intros x y z Hxy Hyz; now apply (Qlt_trans z y x) |].
    cbv [closes series_of seq map bar_of close falling].
    repeat (constructor; try reflexivity). }
  split; [exact D |].
  exact (downtrend_is_silent (series_of falling 35) D).
Defined.

End Shapes.

(** * The table of yearly figures *)

Section GdpTable.

Import Frame.

Variable Cell : Type.
Variable to_numeric : string -> option nat.

Lemma has_column_In (df : DataFrame Cell) (c : string) :
  has_column df c = true <-> In c (columns df).
Proof.
  unfold has_column. rewrite existsb_exists. split.
  - intros (x & Hx & E). apply String.eqb_eq in E. now subst.
  - intros H. exists c. split; [exact H | apply String.eqb_refl].
Qed.

Lemma melt_gives (df : DataFrame Cell) (id_var : string)
      (value_vars : list string) (var_name value_name : string) :
  has_column df value_name = false ->
  (forall c, In c (id_var :: value_vars) -> In c (columns df)) ->
  melt df id_var value_vars var_name value_name =
  Ok (flat_map (fun v => map (fun r => (r id_var, v, r v)) (rows df))
               value_vars).
Proof.
  intros G H. unfold melt. rewrite G.
  destruct (forallb (has_column df) (id_var :: value_vars)) eqn:E;
    [reflexivity |].
  assert (T : forallb (has_column df) (id_var :: value_vars) = true).
  { apply forallb_forall. intros c Hc. apply has_column_In. now apply H. }
  congruence.
Qed.

(** A table that [melt] accepts has every label asked for and no column
    labelled like the value column. *)
Lemma melt_accepts (df : DataFrame Cell) (id_var : string)
      (value_vars : list string) (var_name value_name : string)
      (melted : list (Cell * string * Cell)) :
  melt df id_var value_vars var_name value_name = Ok melted ->
  has_column df value_name = false /\
  (forall c, In c (id_var :: value_vars) -> In c (columns df)).
Proof.
  unfold melt. destruct (has_column df value_name); [discriminate |].
  destruct (forallb (has_column df) (id_var :: value_vars)) eqn:E;
    [| discriminate].
  intros _. split; [reflexivity |].
  intros c Hc. apply has_column_In.
  rewrite forallb_forall in E. now apply E.
Qed.

Hypothesis to_numeric_str : forall n : nat, to_numeric (str n) = Some n.

Lemma to_numeric_years_app (l1 l2 : list (Cell * string * Cell))
      (r1 r2 : list (Cell * nat * Cell)) :
  to_numeric_years Cell to_numeric l1 = Ok r1 ->
  to_numeric_years Cell to_numeric l2 = Ok r2 ->
  to_numeric_years Cell to_numeric (l1 ++ l2) = Ok (r1 ++ r2).
Proof.
  revert r1. induction l1 as [| [[code label] gdp] l1 IH]; cbn; intros r1 H1 H2.
  - now injection H1 as <-.
  - destruct (to_numeric label); [| discriminate].
    destruct (to_numeric_years Cell to_numeric l1) as [r |] eqn:E;
      [| discriminate].
    injection H1 as <-. now rewrite (IH r eq_refl H2).
Qed.

Lemma to_numeric_one_year (id_var : string) (y : nat)
      (rs : list (string -> Cell)) :
  to_numeric_years Cell to_numeric
    (map (fun r => (r id_var, str y, r (str y))) rs) =
  Ok (map (fun r => (r id_var, y, r (str y))) rs).
Proof.
  induction rs as [| r rs IH]; cbn; [reflexivity |].
  now rewrite to_numeric_str, IH.
Qed.

Lemma to_numeric_all_years (id_var : string) (years : list nat)
      (rs : list (string -> Cell)) :
  to_numeric_years Cell to_numeric
    (flat_map (fun v => map (fun r => (r id_var, v, r v)) rs)
              (map str years)) =
  Ok (flat_map (fun y => map (fun r => (r id_var, y, r (str y))) rs) years).
Proof.
  induction years as [| y years IH]; cbn; [reflexivity |].
  apply to_numeric_years_app; [apply to_numeric_one_year | exact IH].
Qed.

(** X10.
    With every needed column there and no column labelled GDP, the
    result has one row per year and per row of the table, the years
    outermost from 1960 to 2022: the country code of the row, the year
    as a number, and the cell of the row under that year.  It has 63
    rows for each row of the table. *)
Theorem gdp_rows (raw_gdp_df : DataFrame Cell) :
  has_column raw_gdp_df "GDP" = false ->
  (forall c, In c ("Country Code"%string :: year_labels) ->
             In c (columns raw_gdp_df)) ->
  exists gdp_df,
    get_gdp_data Cell to_numeric raw_gdp_df = Ok gdp_df /\
    gdp_df =
      flat_map (fun y => map (fun r => (r "Country Code"%string, y, r (str y)))
                             (rows raw_gdp_df))
               (seq 1960 63) /\
    length gdp_df = (63 * length (rows raw_gdp_df))%nat.
Proof.
  intros G P. eexists. split; [| split; [reflexivity |]].
  - unfold get_gdp_data. rewrite (melt_gives _ _ _ _ _ G P).
    apply to_numeric_all_years.
  - rewrite (flat_map_constant_length (c := length (rows raw_gdp_df))).
    + now rewrite length_seq.
    + intros y _. apply length_map.
Qed.

(** X11.
    A row of the result is the cell of some row of the table under
    some year from 1960 to 2022, with that row's country code; and every
    such cell is a row of the result. *)
Theorem gdp_row_iff_cell (raw_gdp_df : DataFrame Cell)
        (gdp_df : list (Cell * nat * Cell)) (code gdp : Cell) (year : nat) :
  get_gdp_data Cell to_numeric raw_gdp_df = Ok gdp_df ->
  (In (code, year, gdp) gdp_df <->
   (1960 <= year <= 2022)%nat /\
   exists r, In r (rows raw_gdp_df) /\
             code = r "Country Code"%string /\ gdp = r (str year)).
Proof.
  intros H.
  assert (A : has_column raw_gdp_df "GDP" = false /\
              (forall c, In c ("Country Code"%string :: year_labels) ->
                         In c (columns raw_gdp_df))).
  { unfold get_gdp_data in H.
    destruct (melt raw_gdp_df "Country Code" year_labels "Year" "GDP")
      as [melted |] eqn:M; [| discriminate].
    exact (melt_accepts _ _ _ _ _ _ M). }
  destruct A as [G P].
  destruct (gdp_rows raw_gdp_df G P) as (out & E & Eout & _).
  assert (X : gdp_df = out) by congruence.
  rewrite X, Eout, in_flat_map. split.
  - intros (y & Hy & Hin). apply in_seq in Hy.
    apply in_map_iff in Hin. destruct Hin as (r & [= <- <- <-] & Hr).
    split; [lia | eauto].
  - intros (Hy & r & Hr & -> & ->). exists year.
    split; [apply in_seq; lia |].
    apply in_map_iff. eauto.
Qed.

End GdpTable.

Section GdpExamples.

Import Frame.

Lemma str_not_empty (n : nat) : str n <> EmptyString.
Proof.
  unfold str. intros E.
  pose proof (NilEmpty.usu (Nat.to_uint n)) as U. rewrite E in U.
  cbn in U. injection U as U.
  pose proof (Unsigned.of_to n) as T. rewrite <- U in T. cbn in T.
  subst n. discriminate.
Qed.

(** A printed number reads back as itself. *)
Lemma read_digits_str (n : nat) : read_digits (str n) = Some n.
Proof.
  unfold read_digits. pose proof (str_not_empty n) as N.
  destruct (str n) eqn:E; [now contradiction N |].
  rewrite <- E. unfold str. rewrite NilEmpty.usu. cbn [option_map].
  now rewrite Unsigned.of_to.
Qed.

Lemma sample_frame_columns (c : string) :
  In c ("Country Code"%string :: year_labels) -> In c (columns sample_frame).
Proof. intros H. right. exact H. Qed.

Lemma gdp_rows_witness :
  exists gdp_df,
    get_gdp_data string read_digits sample_frame = Ok gdp_df /\
    gdp_df =
      flat_map (fun y => map (fun r => (r "Country Code"%string, y, r (str y)))
                             (rows sample_frame))
               (seq 1960 63) /\
    length gdp_df = (63 * length (rows sample_frame))%nat.
Proof.
  refine (gdp_rows string read_digits read_digits_str sample_frame _
            sample_frame_columns).
  vm_compute. reflexivity.
Defined.

Lemma gdp_row_iff_cell_witness :
  In ("Country Code"%string, 1999%nat, "1999"%string)
     (flat_map (fun y => map (fun r => (r "Country Code"%string, y, r (str y)))
                             (rows sample_frame))
               (seq 1960 63)) <->
  (1960 <= 1999 <= 2022)%nat /\
  exists r, In r (rows sample_frame) /\
            "Country Code"%string = r "Country Code"%string /\
            "1999"%string = r (str 1999).
Proof.
  apply (gdp_row_iff_cell string read_digits read_digits_str sample_frame).
  vm_compute. reflexivity.
Defined.

End GdpExamples.

(** * The page *)

Section PageFacts.

Variable Figure : Type.
Variable fetch_stock_data : string -> Date -> Date -> list Bar.
Variable plot : Strategy -> list Bar -> list Figure.

Local Abbreviation draw_page := (draw Figure fetch_stock_data plot).

Lemma chosen_true (share : string) :
  chosen share = true <-> share <> ""%string.
Proof.
  unfold chosen. rewrite negb_true_iff. apply String.eqb_neq.
Qed.

(** What the pass does once the button's branch is reached. *)
Lemma draw_pressed (ss : Session) (inp : Inputs) (share : string)
      (start finish : Date) :
  pressed inp share start finish ->
  draw_page ss inp =
  ([markdown title; markdown ""; markdown ""; markdown ""]
   ++ fst (get_trading_strategy Figure fetch_stock_data plot ss share
             start finish),
   snd (get_trading_strategy Figure fetch_stock_data plot ss share
          start finish)).
Proof.
  intros (<- & Hs & Es & Ee & Hlt & Hb). unfold draw.
  apply chosen_true in Hs. apply Z.ltb_lt in Hlt.
  now rewrite Es, Ee, Hlt, Hb, Hs.
Qed.

Lemma sidebar_entries_app (l1 l2 : list (Element Figure)) :
  sidebar_entries (l1 ++ l2) = sidebar_entries l1 ++ sidebar_entries l2.
Proof.
  induction l1 as [| x l1 IH]; [reflexivity |].
  destruct x; cbn; now rewrite IH.
Qed.

Lemma sidebar_entries_written (ms : list Message) :
  sidebar_entries (map (@sidebar_write Figure) ms) = ms.
Proof. induction ms as [| m ms IH]; cbn; [reflexivity | now rewrite IH]. Qed.

Lemma sidebar_entries_plots (figs : list Figure) :
  sidebar_entries (map (@pyplot Figure) figs) = [].
Proof. induction figs as [| f figs IH]; cbn; [reflexivity | exact IH]. Qed.

Lemma sidebar_entries_signals (ss : Session) :
  sidebar_entries (@trade_signals Figure ss) = session_messages ss.
Proof.
  destruct ss as [[| m ms] |]; try reflexivity.
  cbn [trade_signals sidebar_entries session_messages].
  apply sidebar_entries_written.
Qed.

(** X12.
    The session is touched by a pass only through a run: if a pass
    leaves a session other than the one it found, then a share was
    picked, both dates were given with the start strictly before the
    end, the button was pressed, and the download held at least 30
    bars. *)
Theorem session_changes_only_by_run (ss : Session) (inp : Inputs) :
  snd (draw_page ss inp) <> ss ->
  exists start finish,
    pressed inp (selected_share inp) start finish /\
    (30 <= length (fetch_stock_data (selected_share inp) start finish))%nat.
Proof.
  unfold draw, get_trading_strategy, pressed.
  destruct (start_date inp) as [start |]; [| now intros H].
  destruct (end_date inp) as [finish |]; [| now intros H].
  destruct (Z.ltb_spec start finish) as [Hlt | _]; [| now intros H].
  destruct (button inp); [| now intros H].
  destruct (chosen (selected_share inp)) eqn:C; [| now intros H].
  apply chosen_true in C. cbn [snd].
  destruct (fetch_stock_data (selected_share inp) start finish)
    as [| b data] eqn:D; [now intros H |].
  destruct (Nat.ltb_spec (length (b :: data)) 30) as [Short | Long];
    [now intros H |].
  intros _. exists start, finish. rewrite D. repeat split; auto.
Qed.

(** X13.
    After a run, which takes a download of at least 30 bars, the sidebar
    lists the whole list of the session, in order: everything the
    session held before the pass, from whatever share and dates it came,
    followed by the entries of this run. *)
Theorem sidebar_lists_whole_session (ss : Session) (inp : Inputs)
        (share : string) (start finish : Date) :
  pressed inp share start finish ->
  (30 <= length (fetch_stock_data share start finish))%nat ->
  sidebar_entries (fst (draw_page ss inp)) =
    session_messages ss ++ run_log (fetch_stock_data share start finish) /\
  session_messages (snd (draw_page ss inp)) =
    session_messages ss ++ run_log (fetch_stock_data share start finish).
Proof.
  intros P N. rewrite (draw_pressed _ _ _ _ _ P).
  destruct P as (_ & Hs & _). apply chosen_true in Hs.
  unfold get_trading_strategy. rewrite Hs.
  destruct (fetch_stock_data share start finish) as [| b data];
    [cbn in N; lia |].
  destruct (Nat.ltb_spec (length (b :: data)) 30); [lia |].
  cbn [fst snd]. rewrite !sidebar_entries_app.
  rewrite sidebar_entries_signals, sidebar_entries_plots.
  cbn [sidebar_entries]. rewrite app_nil_r.
  split; apply run_messages_any.
Qed.

(** X14.
    Two presses in one session, each on a download of at least 30 bars:
    the sidebar drawn for the second share begins with the entries of
    the run for the first. *)
Theorem sidebar_keeps_earlier_share (ss : Session) (inp1 inp2 : Inputs)
        (share1 share2 : string) (start1 finish1 start2 finish2 : Date) :
  pressed inp1 share1 start1 finish1 ->
  (30 <= length (fetch_stock_data share1 start1 finish1))%nat ->
  pressed inp2 share2 start2 finish2 ->
  (30 <= length (fetch_stock_data share2 start2 finish2))%nat ->
  sidebar_entries (fst (draw_page (snd (draw_page ss inp1)) inp2)) =
    (session_messages ss ++
     run_log (fetch_stock_data share1 start1 finish1)) ++
    run_log (fetch_stock_data share2 start2 finish2).
Proof.
  intros P1 N1 P2 N2.
  destruct (sidebar_lists_whole_session (snd (draw_page ss inp1)) inp2
              _ _ _ P2 N2) as [-> _].
  now destruct (sidebar_lists_whole_session ss inp1 _ _ _ P1 N1) as [_ ->].
Qed.

(** X15.
    The page asks for valid dates exactly when a date is missing or the
    start is not strictly before the end, equal dates included; it then
    leaves the session as it was and writes nothing to the sidebar. *)
Theorem invalid_dates_warning (ss : Session) (inp : Inputs) :
  (In (warning "Please select valid start and end dates.")
      (fst (draw_page ss inp)) <->
   ~ (exists start finish,
        start_date inp = Some start /\ end_date inp = Some finish /\
        start < finish)) /\
  (In (warning "Please select valid start and end dates.")
      (fst (draw_page ss inp)) ->
   snd (draw_page ss inp) = ss /\ sidebar_entries (fst (draw_page ss inp)) = []).
Proof.
  assert (Bad : forall start finish,
             start_date inp = Some start -> end_date inp = Some finish ->
             (start <? finish) = true ->
             ~ In (warning "Please select valid start and end dates.")
                  (fst (draw_page ss inp))).
  { intros start finish Es Ee Hlt. unfold draw, get_trading_strategy.
    rewrite Es, Ee, Hlt. clear Es Ee Hlt.
    destruct (button inp), (chosen (selected_share inp));
      try destruct (fetch_stock_data (selected_share inp) start finish)
        as [| b data];
      try destruct (length (b :: data) <? 30)%nat;
      cbn [fst]; intros H;
      repeat match goal with
        | K : False |- _ => contradiction
        | K : _ \/ _ |- _ => destruct K
        | K : _ = warning _ |- _ => discriminate K
        | K : In _ (_ ++ _) |- _ => apply in_app_iff in K
        | K : In _ (map _ _) |- _ =>
            apply in_map_iff in K; destruct K as (? & ? & _)
        | K : In _ (trade_signals _) |- _ =>
            unfold trade_signals in K;
            destruct (snd (cerebro_run _ _)) as [[| ? ?] |]
        | K : In _ (_ :: _) |- _ => cbn [In] in K
        | K : In _ [] |- _ => contradiction
        end. }
  assert (Good : (forall start finish,
                    start_date inp = Some start -> end_date inp = Some finish ->
                    (start <? finish) = false) ->
                 In (warning "Please select valid start and end dates.")
                    (fst (draw_page ss inp)) /\
                 snd (draw_page ss inp) = ss /\
                 sidebar_entries (fst (draw_page ss inp)) = []).
  { intros H. unfold draw.
    destruct (start_date inp) as [start |], (end_date inp) as [finish |];
      try rewrite (H start finish eq_refl eq_refl);
      destruct (chosen (selected_share inp)); cbn; auto 10. }
  destruct (start_date inp) as [start |] eqn:Es.
  - destruct (end_date inp) as [finish |] eqn:Ee.
    + destruct (Z.ltb_spec start finish) as [Hlt | Hge].
      * apply Z.ltb_lt in Hlt. pose proof (Bad _ _ eq_refl eq_refl Hlt) as B.
        split; [| now intros H].
        split; [now intros H |].
        intros H. exfalso. apply H. exists start, finish.
        repeat split. now apply Z.ltb_lt.
      * destruct Good as (G1 & G2 & G3).
        { intros ? ? [= <-] [= <-]. now apply Z.ltb_ge. }
        split; [| auto]. split; [| auto].
        intros _ (s & f & [= <-] & [= <-] & Hlt). lia.
    + destruct Good as (G1 & G2 & G3); [discriminate |].
      split; [| auto]. split; [| auto].
      intros _ (s & f & _ & E & _). discriminate.
  - destruct Good as (G1 & G2 & G3); [discriminate |].
    split; [| auto]. split; [| auto].
    intros _ (s & f & E & _). discriminate.
Qed.

End PageFacts.

Section PageExamples.

Lemma first_press_pressed : pressed first_press "BBVA.MC" 1 100.
Proof. repeat split; (discriminate || reflexivity). Qed.

Lemma second_press_pressed : pressed second_press "SAN.MC" 1 100.
Proof. repeat split; (discriminate || reflexivity). Qed.

Lemma session_changes_only_by_run_witness :
  snd (draw unit sample_fetch no_plot None first_press) <> None /\
  exists start finish,
    pressed first_press (selected_share first_press) start finish /\
    (30 <= length (sample_fetch (selected_share first_press) start finish))%nat.
Proof.
  assert (H : snd (draw unit sample_fetch no_plot None first_press) <> None)
    by (vm_compute; discriminate).
  split; [exact H |].
  exact (session_changes_only_by_run unit sample_fetch no_plot None
           first_press H).
Defined.

Lemma sidebar_lists_whole_session_witness :
  sidebar_entries
    (fst (draw unit sample_fetch no_plot (Some [SELL_on 3 (9 # 1)])
            first_press)) =
  session_messages (Some [SELL_on 3 (9 # 1)]) ++
  run_log (sample_fetch "BBVA.MC" 1 100).
Proof.
  refine (proj1 (sidebar_lists_whole_session unit sample_fetch no_plot
                   (Some [SELL_on 3 (9 # 1)]) first_press "BBVA.MC" 1 100
                   first_press_pressed _)).
  apply Nat.leb_le. vm_compute. reflexivity.
Defined.

Lemma sidebar_keeps_earlier_share_witness :
  sidebar_entries
    (fst (draw unit sample_fetch no_plot
            (snd (draw unit sample_fetch no_plot None first_press))
            second_press)) =
  (session_messages None ++ run_log (sample_fetch "BBVA.MC" 1 100)) ++
  run_log (sample_fetch "SAN.MC" 1 100).
Proof.
  refine (sidebar_keeps_earlier_share unit sample_fetch no_plot None
            first_press second_press "BBVA.MC" "SAN.MC" 1 100 1 100
            first_press_pressed _ second_press_pressed _);
    apply Nat.leb_le; vm_compute; reflexivity.
Defined.

Lemma invalid_dates_warning_witness :
  In (warning "Please select valid start and end dates.")
     (fst (draw unit sample_fetch no_plot None same_day_press)) /\
  snd (draw unit sample_fetch no_plot None same_day_press) = None /\
  sidebar_entries (fst (draw unit sample_fetch no_plot None same_day_press))
    = [].
Proof.
  assert (H : In (warning "Please select valid start and end dates.")
                 (fst (draw unit sample_fetch no_plot None same_day_press))).
  { vm_compute. auto 10. }
  split; [exact H |].
  exact (proj2 (invalid_dates_warning unit sample_fetch no_plot None
                  same_day_press) H).
Defined.

End PageExamples.

